(** * Domain availability checker: a shallow embedding and its properties

    The development follows [scripts/domain_availability_checker.py]
    (class [DomainAvailabilityChecker]) and
    [scripts/simple_domain_checker.py] (class [SimpleDomainChecker]).

    Modelling conventions.
    - Python [str] is [string]; [str.lower] is modelled on ASCII letters
      (candidate names are short alphabetic strings).
    - A checker's verdict is Python's [True]/[False]/[None], kept as
      [option bool]: [Some true] reads "Exists", [Some false] reads
      "DoesNotExist", [None] reads "Unknown".
    - Network capabilities (resolver, WHOIS client, HTTP session) are
      black boxes: functions from their argument to a value or a raised
      exception.  Raised exceptions are data of type [exn]; a computation
      that may raise has type [result A].
    - The availability percentage is a Python float; it is modelled by the
      exact rational it approximates.  [float_model_adequate] checks, on
      binary64 arithmetic, that every threshold test of the source gives
      the same answer on the rational.
    - Logging, sleeping and timestamps other than the recorded one have no
      influence on the returned values and are left out. *)

From Stdlib Require Import List String Ascii Bool Arith ZArith QArith Lia.
From Stdlib Require Import Permutation Sorted DecimalString.
From Stdlib Require Import Floats Uint63.
Import ListNotations.
Open Scope string_scope.

(** ** The fragment of the Python runtime the scripts rely on *)

Module Py.

(** Exceptions of the [Exception] hierarchy that the scripts name in an
    [except] clause, each with its [str(e)] text, and one constructor for
    every other subclass of [Exception].  What lies outside that hierarchy
    ([KeyboardInterrupt], [SystemExit]) ends the run and is not an outcome
    of a capability. *)
Inductive exn : Type :=
| NXDOMAIN (msg : string)          (* dns.resolver.NXDOMAIN *)
| NoAnswer (msg : string)          (* dns.resolver.NoAnswer *)
| PywhoisError (msg : string)      (* whois.parser.PywhoisError *)
| ConnectionError (msg : string)   (* requests.exceptions.ConnectionError *)
| Timeout (msg : string)           (* requests.exceptions.Timeout *)
| Gaierror (msg : string)          (* socket.gaierror *)
| HTTPError (code : Z) (msg : string)  (* urllib.error.HTTPError *)
| URLError (msg : string)          (* urllib.error.URLError *)
| IndexError (msg : string)
| KeyError (msg : string)
| OtherException (msg : string).

(** [str(e)] *)
Definition str_exn (e : exn) : string :=
  match e with
  | NXDOMAIN m | NoAnswer m | PywhoisError m | ConnectionError m
  | Timeout m | Gaierror m | HTTPError _ m | URLError m | IndexError m
  | KeyError m | OtherException m => m
  end.

Inductive result (A : Type) : Type :=
| Ok (a : A)
| Raise (e : exn).
Arguments Ok {A} a.
Arguments Raise {A} e.

Definition bind {A B} (m : result A) (k : A -> result B) : result B :=
  match m with
  | Ok a => k a
  | Raise e => Raise e
  end.

(** [try: body  except ...: handler] where the handler list of the source is
    folded into one function on the raised exception. *)
Definition try_except {A} (body : result A) (handler : exn -> result A)
  : result A :=
  match body with
  | Ok a => Ok a
  | Raise e => handler e
  end.

Definition returns {A} (m : result A) : Prop := exists a, m = Ok a.

(** [str.lower()], on ASCII. *)
Definition lower_ascii (c : ascii) : ascii :=
  let n := nat_of_ascii c in
  if (65 <=? n)%nat && (n <=? 90)%nat then ascii_of_nat (n + 32) else c.

Fixpoint lower (s : string) : string :=
  match s with
  | EmptyString => EmptyString
  | String c s' => String (lower_ascii c) (lower s')
  end.

(** [sub in s] *)
Fixpoint str_in (sub s : string) : bool :=
  prefix sub s ||
  match s with
  | EmptyString => false
  | String _ s' => str_in sub s'
  end.

(** [s.endswith(suf)] *)
Definition endswith (s suf : string) : bool :=
  (length suf <=? length s)%nat &&
  String.eqb (substring (length s - length suf) (length suf) s) suf.

(** [str(n)] for an [int]. *)
Definition str_int (n : Z) : string := NilZero.string_of_int (Z.to_int n).

(** Truth value of a [True]/[False]/[None] object, as tested by [if x:]. *)
Definition truthy (x : option bool) : bool :=
  match x with
  | Some b => b
  | None => false
  end.

(** [x == False] on a [True]/[False]/[None] object. *)
Definition is_False (x : option bool) : bool :=
  match x with
  | Some false => true
  | _ => false
  end.

(** [x == True] *)
Definition is_True (x : option bool) : bool :=
  match x with
  | Some true => true
  | _ => false
  end.

(** Truth value of a [str]: the empty string is false. *)
Definition nonempty (s : string) : bool :=
  match s with
  | EmptyString => false
  | String _ _ => true
  end.

(** Truth value of a [str]-or-[None] object. *)
Definition truthy_str (x : option string) : bool :=
  match x with
  | Some s => nonempty s
  | None => false
  end.

(** [x is not None] *)
Definition is_not_None {T} (x : option T) : bool :=
  match x with
  | Some _ => true
  | None => false
  end.

(** [s * n] *)
Fixpoint str_times (s : string) (n : nat) : string :=
  match n with
  | O => EmptyString
  | S n' => s ++ str_times s n'
  end.

(** [f"{s:>w}"] and [f"{s:<w}"]: padding with spaces up to the width, no
    cut; the width counts bytes, which are the characters on ASCII. *)
Definition rjust (width : nat) (s : string) : string :=
  str_times " " (width - String.length s) ++ s.

Definition ljust (width : nat) (s : string) : string :=
  s ++ str_times " " (width - String.length s).

(** [str(x)] for a [str]-or-[None] object. *)
Definition str_opt (x : option string) : string :=
  match x with
  | Some s => s
  | None => "None"
  end.

(** [enumerate(l, 1)] *)
Definition enumerate1 {T} (l : list T) : list (nat * T) :=
  combine (seq 1 (List.length l)) l.

(** *** [list.sort(key=..., reverse=True)]

    The built-in sort is stable, also under [reverse=True]: the result is
    the arrangement in which keys never increase and items whose keys
    compare equal keep their relative order.  It compares keys with [<]
    only.  The model inserts from the right; an item travels past the items
    whose key is strictly greater and stops before the first other one. *)
Section Sort.
Context {A K : Type}.
Variable lt : K -> K -> bool.
Variable key : A -> K.

Fixpoint insert_desc (x : A) (l : list A) : list A :=
  match l with
  | [] => [x]
  | y :: l' =>
      if lt (key x) (key y) then y :: insert_desc x l'
      else x :: y :: l'
  end.

Definition sort_desc (l : list A) : list A :=
  fold_right insert_desc [] l.

(** Keys that compare equal: neither is smaller. *)
Definition key_equiv (a b : K) : bool := negb (lt a b) && negb (lt b a).

(** [a] may stand before [b] in a descending arrangement. *)
Definition desc_ok (x y : A) : Prop := lt (key x) (key y) = false.
End Sort.

(** Orders on the key types used by the scripts.  [False < True]; tuples
    compare at the first position where they differ. *)
Definition bool_lt (a b : bool) : bool := negb a && b.

Definition pair_lt {X Y} (eqx : X -> X -> bool) (ltx : X -> X -> bool)
  (lty : Y -> Y -> bool) (a b : X * Y) : bool :=
  if eqx (fst a) (fst b) then lty (snd a) (snd b) else ltx (fst a) (fst b).

(** A pair that may stand before another when pairs (flag, count) are in
    descending order: a set flag before a cleared one, and with the same
    flag the larger count first. *)
Definition pair_desc (a b : bool * nat) : Prop :=
  (fst a = true /\ fst b = false) \/ (fst a = fst b /\ (snd b <= snd a)%nat).

(** [a < b] on floats, read on the rationals that model them. *)
Definition Q_lt (a b : Q) : bool := negb (Qle_bool b a).

End Py.
Import Py.

Notation "x <- m ;; k" := (bind m (fun x => k))
  (at level 61, m at next level, right associativity).

(** ** [domain_availability_checker.py] *)

Module DomainAvailabilityChecker.

(** What [whois.whois(domain)] returns: the [domain_name] attribute (absent
    as [None]) and the [creation_date] attribute, which the library gives
    as [None], as one date or as a list of dates.  A date is kept as the
    text [str] renders. *)
Inductive creation_date_t : Type :=
| DateNone
| DateOne (d : string)
| DateList (ds : list string).

Record whois_entry : Type := {
  domain_name : option string;
  creation_date : creation_date_t
}.

(** The external capabilities the methods call, and the order in which
    [as_completed] hands back the submitted futures (any order is
    possible, it depends on which worker finishes first). *)
Record world : Type := {
  dns_resolve : string -> result unit;        (* dns.resolver.resolve(d, 'A') *)
  whois_whois : string -> result whois_entry; (* whois.whois(d) *)
  session_get : string -> result Z;           (* session.get(url, ...).status_code *)
  now : string;                               (* datetime.now().isoformat() *)
  as_completed : forall T : Type, list T -> list T
}.

(** The attributes [__init__] sets and the methods read. *)
Record checker : Type := {
  candidate_names : list string;
  extensions : list string;
  suffixes : list string
}.

Definition init : checker := {|
  candidate_names :=
    ["VEXOLY"; "ZEPHYX"; "SYNCORA"; "FLOWRIX"; "WASLYX";
     "QUANTYX"; "BYTORA"; "INTEXLY"; "UNIFLUX"; "BONDYX";
     "NEXAFY"; "PIXARA"; "DYNEX"; "XERION"; "VORTYX";
     "FLUXOR"; "ZENRIX"; "NEXBIT"; "SKYRIX"; "PROXLY"];
  extensions := [".com"; ".net"; ".org"; ".io"; ".app"; ".tech"; ".ai"];
  suffixes := [""; "hq"; "io"; "app"; "tech"; "labs"; "sys"; "pro"; "hub"]
|}.

Definition verdict : Type := (option bool * string)%type.

Section Checks.
Variable w : world.

Definition check_dns_resolution (domain : string) : result verdict :=
  try_except
    (_ <- dns_resolve w domain ;;
     Ok (Some true, "Domain resolves"))
    (fun e =>
       match e with
       | NXDOMAIN _ => Ok (Some false, "NXDOMAIN - Domain does not exist")
       | NoAnswer _ => Ok (Some true, "Domain exists but no A record")
       | _ => Ok (None, "DNS check failed: " ++ str_exn e)
       end).

(** [creation_date[0]] when [creation_date] is a list, else the object
    itself; indexing an empty list raises. *)
Definition first_if_list (c : creation_date_t) : result string :=
  match c with
  | DateNone => Ok "None"
  | DateOne d => Ok d
  | DateList [] => Raise (IndexError "list index out of range")
  | DateList (d :: _) => Ok d
  end.

Definition check_whois (domain : string) : result verdict :=
  try_except
    (e <- whois_whois w domain ;;
     match domain_name e with
     | None => Ok (Some false, "Domain available (no WHOIS record)")
     | Some _ =>
         d <- first_if_list (creation_date e) ;;
         Ok (Some true, "Domain registered on " ++ d)
     end)
    (fun e =>
       match e with
       | PywhoisError m =>
           if str_in "No match" m || str_in "not found" (lower m)
           then Ok (Some false, "Domain available (WHOIS: No match)")
           else Ok (None, "WHOIS error: " ++ m)
       | _ => Ok (None, "WHOIS check failed: " ++ str_exn e)
       end).

(** The body of the [for protocol in protocols] loop returns from the
    function on any response and moves on to the next protocol on any
    exception; the text after the loop is reached when no protocol is
    left. *)
Fixpoint http_loop (domain : string) (protocols : list string)
  : result verdict :=
  match protocols with
  | [] => Ok (Some false, "No HTTP response (likely available)")
  | protocol :: rest =>
      try_except
        (status_code <- session_get w (protocol ++ domain) ;;
         if (status_code =? 200)%Z then
           Ok (Some true, "Active website (" ++ protocol ++ ") - Status: "
                          ++ str_int status_code)
         else if (status_code =? 404)%Z then
           Ok (Some false, "No website found (" ++ protocol
                           ++ ") - Status: 404")
         else
           Ok (Some true, "Website exists (" ++ protocol ++ ") - Status: "
                          ++ str_int status_code))
        (fun e =>
           match e with
           | ConnectionError _ => http_loop domain rest
           | Timeout _ => http_loop domain rest
           | _ => http_loop domain rest
           end)
  end.

Definition check_http_response (domain : string) : result verdict :=
  http_loop domain ["https://"; "http://"].
End Checks.


(** A request that does not get through: [ConnectionError] or [Timeout]. *)
Definition fails_to_connect (r : result Z) : Prop :=
  exists m, r = Raise (ConnectionError m) \/ r = Raise (Timeout m).

(** The dictionary [comprehensive_domain_check] returns.  The key
    ['availability_score'] is set only when some check is conclusive. *)
Record assessment : Type := {
  a_domain : string;
  a_timestamp : string;
  a_checks : list (string * verdict);  (* 'dns', 'whois', 'http', in this order *)
  availability_score : option Q;
  likely_available : option bool;
  confidence : string
}.

(** One turn of the loop over [results['checks'].items()], on the pair
    [(availability_score, total_checks)]. *)
Definition tally (acc : Z * Z) (item : string * verdict) : Z * Z :=
  let '(availability_score, total_checks) := acc in
  match fst (snd item) with
  | None => acc
  | Some _ =>
      (if is_False (fst (snd item)) then availability_score + 1
       else availability_score,
       total_checks + 1)%Z
  end.

(** The "Availability Assessment" part of [comprehensive_domain_check]. *)
Definition assess (domain timestamp : string) (checks : list (string * verdict))
  : assessment :=
  let '(availability_score, total_checks) := fold_left tally checks (0, 0)%Z in
  if (total_checks >? 0)%Z then
    let availability_percentage :=
      ((inject_Z availability_score / inject_Z total_checks) * 100)%Q in
    if Qle_bool 67 availability_percentage then
      {| a_domain := domain; a_timestamp := timestamp; a_checks := checks;
         availability_score := Some availability_percentage;
         likely_available := Some true;
         confidence := if Qeq_bool availability_percentage 100
                       then "High" else "Medium" |}
    else
      {| a_domain := domain; a_timestamp := timestamp; a_checks := checks;
         availability_score := Some availability_percentage;
         likely_available := Some false;
         confidence := "Low" |}
  else
    {| a_domain := domain; a_timestamp := timestamp; a_checks := checks;
       availability_score := None;
       likely_available := None;
       confidence := "Unknown" |}.

(** The counts as the specification words them: the signals whose value is not
    Unknown, and those among them that say DoesNotExist. *)
Definition conclusive (signals : list verdict) : nat :=
  List.length (filter (fun v => is_not_None (fst v)) signals).

Definition absent_votes (signals : list verdict) : nat :=
  List.length (filter (fun v => is_False (fst v)) signals).

Definition vote_share (signals : list verdict) : Q :=
  ((inject_Z (Z.of_nat (absent_votes signals))
    / inject_Z (Z.of_nat (conclusive signals))) * 100)%Q.

(** [(availability_score / total_checks) * 100] as the interpreter
    computes it, on binary64 floats. *)
Definition float_percentage (availability_score total_checks : Z) : float :=
  PrimFloat.mul
    (PrimFloat.div (PrimFloat.of_uint63 (Uint63.of_Z availability_score))
                   (PrimFloat.of_uint63 (Uint63.of_Z total_checks)))
    (PrimFloat.of_uint63 100%uint63).

(** The same on rationals, as [assess] has it. *)
Definition exact_percentage (availability_score total_checks : Z) : Q :=
  ((inject_Z availability_score / inject_Z total_checks) * 100)%Q.

(** The pairs [(availability_score, total_checks)] three checks can
    produce with [total_checks > 0]. *)
Definition reachable_tallies : list (Z * Z) :=
  [(0, 1); (1, 1); (0, 2); (1, 2); (2, 2); (0, 3); (1, 3); (2, 3); (3, 3)]%Z.

Definition comprehensive_domain_check (w : world) (domain : string)
  : result assessment :=
  dns <- check_dns_resolution w domain ;;
  whois <- check_whois w domain ;;
  http <- check_http_response w domain ;;
  Ok (assess domain (now w) [("dns", dns); ("whois", whois); ("http", http)]).

Definition generate_domain_variations (self : checker) (base_name : string)
  : list string :=
  let base_lower := lower base_name in
  fold_left
    (fun variations suffix =>
       let domain_name :=
         if nonempty suffix then base_lower ++ suffix else base_lower in
       fold_left
         (fun variations ext =>
            (variations ++ [(domain_name ++ ext)%string])%list)
         (extensions self) variations)
    (suffixes self) [].

(** The product order as the specification words it: for each suffix, for each
    extension, emit lowercase(name) + suffix + extension. *)
Definition variations_spec (name : string) (suffixes extensions : list string)
  : list string :=
  flat_map
    (fun suffix => map (fun ext => (lower name ++ suffix) ++ ext) extensions)
    suffixes.

(** An item of ['available_domains']. *)
Record option_t : Type := {
  o_domain : string;
  o_confidence : string;
  o_score : Q
}.

Record summary_t : Type := {
  total_domains_checked : nat;
  s_likely_available : nat;
  likely_registered : Z;
  availability_rate : Q;
  best_com_option : option string;
  best_alternatives : list string
}.

Record business_results_t : Type := {
  business_name : string;
  total_variations : nat;
  domains_checked : list assessment;
  available_domains : list option_t;
  registered_domains : list string;
  summary : summary_t
}.

(** The three lists the loop over the completed futures appends to. *)
Definition collected : Type :=
  (list assessment * list option_t * list string)%type.

(** The body of [for future in as_completed(future_to_domain)].
    [future.result()] re-raises what the worker raised; reading
    [result['availability_score']] raises [KeyError] when the key is
    absent; either way the handler logs and the loop goes on, with what was
    appended before the exception kept. *)
Definition collect (acc : collected) (future : string * result assessment)
  : collected :=
  let '(checked, available, registered) := acc in
  let '(domain, outcome) := future in
  match outcome with
  | Raise _ => acc
  | Ok result =>
      let checked := (checked ++ [result])%list in
      if truthy (likely_available result) then
        match availability_score result with
        | None => (checked, available, registered)
        | Some score =>
            (checked,
             (available ++ [{| o_domain := domain;
                               o_confidence := confidence result;
                               o_score := score |}])%list,
             registered)
        end
      else (checked, available, (registered ++ [domain])%list)
  end.

(** [x['confidence'] == 'High'] *)
Definition is_High (x : option_t) : bool :=
  String.eqb (o_confidence x) "High".

(** [key=lambda x: (x['confidence'] == 'High', x['score'])] *)
Definition rank_key (x : option_t) : bool * Q :=
  (is_High x, o_score x).

Definition rank_lt : bool * Q -> bool * Q -> bool :=
  pair_lt Bool.eqb bool_lt Q_lt.

Definition rank (l : list option_t) : list option_t :=
  sort_desc rank_lt rank_key l.

Definition is_com (d : option_t) : bool := endswith (o_domain d) ".com".

(** [future_to_domain]: one future per variation, in submission order, with
    what its worker computes. *)
Definition future_to_domain (w : world) (variations : list string)
  : list (string * result assessment) :=
  map (fun domain => (domain, comprehensive_domain_check w domain)) variations.

(** The [with ThreadPoolExecutor(...)] block. *)
Definition gather (w : world) (variations : list string) : collected :=
  fold_left collect (as_completed w _ (future_to_domain w variations))
            ([], [], []).

(** [as_completed] yields every submitted future once, in some order. *)
Definition yields_each_once (w : world) : Prop :=
  forall (T : Type) (l : list T), Permutation (as_completed w T l) l.

(** The future's assessment is likely available. *)
Definition is_available (future : string * result assessment) : bool :=
  match snd future with
  | Ok result => truthy (likely_available result)
  | Raise _ => false
  end.

(** The future's assessment came back and is not likely available. *)
Definition is_registered (future : string * result assessment) : bool :=
  match snd future with
  | Ok result => negb (truthy (likely_available result))
  | Raise _ => false
  end.

(** What the orchestrator needs of a future: it came back, with a score
    whenever it is likely available. *)
Definition sound (future : string * result assessment) : Prop :=
  exists a, snd future = Ok a /\
            (truthy (likely_available a) = true ->
             exists q, availability_score a = Some q).

(** An option with score 100 and confidence High. *)
Definition top_option (o : option_t) : Prop :=
  o_confidence o = "High" /\ (o_score o == 100)%Q.

(** A future that came back, and whose assessment, when likely available,
    has score 100 and confidence High. *)
Definition unanimous (future : string * result assessment) : Prop :=
  exists a, snd future = Ok a /\
            a_domain a = fst future /\
            (truthy (likely_available a) = true ->
             confidence a = "High" /\
             exists q, availability_score a = Some q /\ (q == 100)%Q).

(** The assessments of the futures that came back. *)
Definition came_back (futures : list (string * result assessment))
  : list assessment :=
  flat_map (fun future => match snd future with
                          | Ok a => [a]
                          | Raise _ => []
                          end) futures.

(** Some occurrence of [a] stands before some occurrence of [b] in [l]. *)
Fixpoint precedes (a b : string) (l : list string) : bool :=
  match l with
  | [] => false
  | x :: l' =>
      (String.eqb x a && existsb (String.eqb b) l') || precedes a b l'
  end.

Definition check_business_name (w : world) (self : checker)
  (business_name : string) : result business_results_t :=
  let variations := generate_domain_variations self business_name in
  let '(checked, available, registered) := gather w variations in
  let total_checked := List.length checked in
  let total_available := List.length available in
  let com_options := rank (filter is_com available) in
  let non_com_options :=
    rank (filter (fun d => negb (is_com d)) available) in
  Ok {| business_name := business_name;
        total_variations := List.length variations;
        domains_checked := checked;
        available_domains := available;
        registered_domains := registered;
        summary := {|
          total_domains_checked := total_checked;
          s_likely_available := total_available;
          likely_registered :=
            (Z.of_nat total_checked - Z.of_nat total_available)%Z;
          availability_rate :=
            if (0 <? total_checked)%nat
            then ((inject_Z (Z.of_nat total_available)
                   / inject_Z (Z.of_nat total_checked)) * 100)%Q
            else 0%Q;
          best_com_option :=
            match com_options with
            | [] => None
            | best :: _ => Some (o_domain best)
            end;
          best_alternatives := map o_domain (firstn 3 non_com_options)
        |} |}.

(** An item of ['best_opportunities']. *)
Record opportunity_t : Type := {
  opp_business_name : string;
  best_com_domain : option string;
  total_available : nat
}.

Record overall_summary_t : Type := {
  total_names_checked : nat;
  names_with_com_available : Z;
  best_opportunities : list opportunity_t
}.

Record all_results_t : Type := {
  check_timestamp : string;
  business_names : list business_results_t;
  overall_summary : overall_summary_t
}.

(** The body of [for name in self.candidate_names], on the triple
    (['business_names'], ['names_with_com_available'],
    ['best_opportunities']). *)
Definition track (w : world) (self : checker)
  (acc : list business_results_t * Z * list opportunity_t) (name : string)
  : list business_results_t * Z * list opportunity_t :=
  let '(names, with_com, best) := acc in
  match check_business_name w self name with
  | Raise _ => acc
  | Ok business_result =>
      let names := (names ++ [business_result])%list in
      if truthy_str (best_com_option (summary business_result)) then
        (names, (with_com + 1)%Z,
         (best ++ [{| opp_business_name := name;
                      best_com_domain :=
                        best_com_option (summary business_result);
                      total_available :=
                        s_likely_available (summary business_result) |}])%list)
      else (names, with_com, best)
  end.

(** The pair the specification ranks candidate names by. *)
Definition opportunity_key (x : opportunity_t) : bool * nat :=
  (truthy_str (best_com_domain x), total_available x).

(** The report on the name has a best [.com] option. *)
Definition has_com_option (w : world) (self : checker) (name : string)
  : bool :=
  match check_business_name w self name with
  | Ok r => truthy_str (best_com_option (summary r))
  | Raise _ => false
  end.

(** What an entry of the ranking says about its name: a [.com] domain is
    among the name's likely available domains, and the count is the number
    of those domains. *)
Definition opportunity_ok (w : world) (self : checker) (o : opportunity_t)
  : Prop :=
  exists r,
    check_business_name w self (opp_business_name o) = Ok r /\
    truthy_str (best_com_domain o) = true /\
    existsb is_com (available_domains r) = true /\
    total_available o = List.length (available_domains r).

Definition run_comprehensive_check (w : world) (self : checker)
  : all_results_t :=
  let '(names, with_com, best) :=
    fold_left (track w self) (candidate_names self) ([], 0%Z, []) in
  {| check_timestamp := now w;
     business_names := names;
     overall_summary := {|
       total_names_checked := List.length (candidate_names self);
       names_with_com_available := with_com;
       best_opportunities := sort_desc Nat.ltb total_available best
     |} |}.

(** The ranking of the run ranks the candidate names, each once, in
    descending order of the pair. *)
Definition ranks_all_candidates (w : world) (self : checker) : Prop :=
  let ranking :=
    best_opportunities (overall_summary (run_comprehensive_check w self)) in
  Permutation (map opp_business_name ranking) (candidate_names self) /\
  StronglySorted
    (fun x y => pair_desc (opportunity_key x) (opportunity_key y)) ranking.

(** The [.com] options of a report, as ranked for ['best_com_option']. *)
Definition com_options (r : business_results_t) : list option_t :=
  filter is_com (available_domains r).

(** Ties in the ranking of the [.com] options broken by generation order:
    of two options with equal confidence and equal score, the one
    generated first is ranked first. *)
Definition ties_in_generation_order (w : world) (self : checker)
  (name : string) : Prop :=
  forall r x y,
    check_business_name w self name = Ok r ->
    In x (com_options r) -> In y (com_options r) ->
    o_confidence x = o_confidence y -> o_score x == o_score y ->
    o_domain x <> o_domain y ->
    precedes (o_domain x) (o_domain y)
             (generate_domain_variations self name) = true ->
    precedes (o_domain x) (o_domain y)
             (map o_domain (rank (com_options r))) = true.

(** A world in which no name is registered anywhere and futures complete
    in the order [order] gives. *)
Definition empty_internet (order : forall T : Type, list T -> list T)
  : world := {|
  dns_resolve := fun _ => Raise (NXDOMAIN "The DNS query name does not exist");
  whois_whois := fun _ => Raise (PywhoisError "No match for domain");
  session_get := fun _ => Raise (ConnectionError "Name or service not known");
  now := "2025-01-01T00:00:00";
  as_completed := order
|}.

(** A world in which every name resolves, WHOIS times out and the two
    schemes behave as given. *)
Definition answering (https http : result Z) : world := {|
  dns_resolve := fun _ => Ok tt;
  whois_whois := fun _ => Raise (OtherException "timed out");
  session_get := fun url => if prefix "https://" url then https else http;
  now := "2025-01-01T00:00:00";
  as_completed := fun _ l => l
|}.

(** A world in which the names ending in [.com] are registered, with an
    active site, and no other name exists. *)
Definition com_taken : world := {|
  dns_resolve := fun d =>
    if endswith d ".com" then Ok tt
    else Raise (NXDOMAIN "The DNS query name does not exist");
  whois_whois := fun d =>
    if endswith d ".com"
    then Ok {| domain_name := Some d;
               creation_date := DateOne "1999-01-01 00:00:00" |}
    else Raise (PywhoisError "No match for domain");
  session_get := fun url =>
    if endswith url ".com" then Ok 200%Z
    else Raise (ConnectionError "Name or service not known");
  now := "2025-01-01T00:00:00";
  as_completed := fun _ l => l
|}.

Definition com_and_net : checker := {|
  candidate_names := ["ACME"];
  extensions := [".com"; ".net"];
  suffixes := [""]
|}.

Definition submission_order : forall T : Type, list T -> list T :=
  fun _ l => l.

Definition last_first : forall T : Type, list T -> list T :=
  fun _ l => rev l.

Definition plain_and_hq : checker := {|
  candidate_names := ["ACME"];
  extensions := [".com"];
  suffixes := [""; "hq"]
|}.

End DomainAvailabilityChecker.

(** ** [simple_domain_checker.py] *)

Module SimpleDomainChecker.

Record world : Type := {
  gethostbyname : string -> result string;  (* socket.gethostbyname(d) *)
  urlopen : string -> result Z;             (* urlopen(req, ...).getcode() *)
  now : string
}.

Record checker : Type := {
  candidate_names : list string;
  extensions : list string;
  suffixes : list string
}.

Definition init : checker := {|
  candidate_names :=
    ["VEXOLY"; "ZEPHYX"; "SYNCORA"; "FLOWRIX"; "WASLYX";
     "QUANTYX"; "BYTORA"; "INTEXLY"; "UNIFLUX"; "BONDYX";
     "NEXAFY"; "PIXARA"; "DYNEX"; "XERION"; "VORTYX";
     "FLUXOR"; "ZENRIX"; "NEXBIT"; "SKYRIX"; "PROXLY";
     "ZYLUX"; "NUVEX"; "RYTEX"; "QOREX"; "VEXAR"];
  extensions := [".com"; ".net"; ".org"; ".io"; ".app"];
  suffixes := [""; "hq"; "io"; "app"; "tech"; "labs"; "hub"]
|}.

Definition verdict : Type := (option bool * string)%type.

(** The dictionary [quick_availability_check] returns. *)
Record quick_result : Type := {
  q_domain : string;
  q_timestamp : string;
  dns_exists : option bool;
  dns_message : string;
  http_exists : option bool;
  http_message : string;
  likely_available : option bool;
  confidence : string;
  reason : string
}.

Section Checks.
Variable w : world.

Definition check_dns_exists (domain : string) : result verdict :=
  try_except
    (_ <- gethostbyname w domain ;;
     Ok (Some true, "Domain resolves to IP"))
    (fun e =>
       match e with
       | Gaierror m =>
           if str_in "Name or service not known" m
              || str_in "nodename nor servname provided" m
           then Ok (Some false, "Domain does not resolve (likely available)")
           else Ok (None, "DNS error: " ++ m)
       | _ => Ok (None, "DNS check failed: " ++ str_exn e)
       end).

Fixpoint http_loop (domain : string) (protocols : list string)
  : result verdict :=
  match protocols with
  | [] => Ok (Some false, "No HTTP response (likely no active website)")
  | protocol :: rest =>
      try_except
        (status_code <- urlopen w (protocol ++ domain) ;;
         if (status_code =? 200)%Z then
           Ok (Some true, "Active website (" ++ protocol ++ ") - Status: "
                          ++ str_int status_code)
         else
           Ok (Some true, "Website exists (" ++ protocol ++ ") - Status: "
                          ++ str_int status_code))
        (fun e =>
           match e with
           | HTTPError code _ =>
               if (code =? 404)%Z then
                 Ok (Some false, "No website content (" ++ protocol
                                 ++ ") - Status: 404")
               else
                 Ok (Some true, "Website exists but error (" ++ protocol
                                ++ ") - Status: " ++ str_int code)
           | URLError _ => http_loop domain rest
           | _ => http_loop domain rest
           end)
  end.

Definition check_http_exists (domain : string) : result verdict :=
  http_loop domain ["https://"; "http://"].

(** [http_exists] is bound as a local only when the DNS verdict is
    true, and read only in the branches where it is. *)
Definition quick_availability_check (domain : string)
  : result quick_result :=
  dns <- check_dns_exists domain ;;
  http <- (if truthy (fst dns) then check_http_exists domain
           else Ok (Some false, "No DNS resolution, no HTTP check needed")) ;;
  let '(likely, conf, why) :=
    if is_False (fst dns) then
      (Some true, "High", "Domain does not resolve")
    else if is_True (fst dns) && is_False (fst http) then
      (Some false, "Medium", "Domain resolves but no active website")
    else if is_True (fst dns) && is_True (fst http) then
      (Some false, "High", "Domain has active website")
    else
      (None, "Unknown", "Unable to determine status") in
  Ok {| q_domain := domain; q_timestamp := now w;
        dns_exists := fst dns; dns_message := snd dns;
        http_exists := fst http; http_message := snd http;
        likely_available := likely; confidence := conf; reason := why |}.
End Checks.

Definition generate_domain_variations (self : checker) (base_name : string)
  : list string :=
  let base_lower := lower base_name in
  fold_left
    (fun variations suffix =>
       let domain_name :=
         if nonempty suffix then base_lower ++ suffix else base_lower in
       fold_left
         (fun variations ext =>
            (variations ++ [(domain_name ++ ext)%string])%list)
         (extensions self) variations)
    (suffixes self) [].

(** An item of ['available_domains']. *)
Record option_t : Type := {
  o_domain : string;
  o_confidence : string;
  o_reason : string
}.

Record business_results_t : Type := {
  business_name : string;
  domains_checked : list quick_result;
  available_domains : list option_t;
  registered_domains : list string;
  best_com_option : option string;
  best_alternatives : list string
}.

Definition collected : Type :=
  (list quick_result * list option_t * list string)%type.

(** The body of [for domain in variations], exceptions caught and
    printed. *)
Definition collect (w : world) (acc : collected) (domain : string)
  : collected :=
  let '(checked, available, registered) := acc in
  match quick_availability_check w domain with
  | Raise _ => acc
  | Ok result =>
      let checked := (checked ++ [result])%list in
      if truthy (likely_available result) then
        (checked,
         (available ++ [{| o_domain := domain;
                           o_confidence := confidence result;
                           o_reason := reason result |}])%list,
         registered)
      else (checked, available, (registered ++ [domain])%list)
  end.

(** [key=lambda x: x['confidence'] == 'High'] *)
Definition rank_key (x : option_t) : bool :=
  String.eqb (o_confidence x) "High".

Definition rank (l : list option_t) : list option_t :=
  sort_desc bool_lt rank_key l.

Definition is_com (d : option_t) : bool := endswith (o_domain d) ".com".

Definition check_business_name (w : world) (self : checker)
  (business_name : string) : result business_results_t :=
  let variations := generate_domain_variations self business_name in
  let '(checked, available, registered) :=
    fold_left (collect w) variations ([], [], []) in
  let available_coms := rank (filter is_com available) in
  let alternatives := rank (filter (fun d => negb (is_com d)) available) in
  Ok {| business_name := business_name;
        domains_checked := checked;
        available_domains := available;
        registered_domains := registered;
        best_com_option :=
          match available_coms with
          | [] => None
          | best :: _ => Some (o_domain best)
          end;
        best_alternatives := map o_domain (firstn 3 alternatives) |}.

(** The DNS check of the domain says it does not exist. *)
Definition dns_says_free (w : world) (domain : string) : bool :=
  match check_dns_exists w domain with
  | Ok (Some false, _) => true
  | _ => false
  end.

(** The world with another [urlopen]. *)
Definition with_urlopen (w : world) (u : string -> result Z) : world := {|
  gethostbyname := gethostbyname w;
  urlopen := u;
  now := now w
|}.

(** A world in which names ending in [.com] do not resolve and all others
    resolve and answer with the given outcome. *)
Definition coms_free (answer : result Z) : world := {|
  gethostbyname := fun d =>
    if endswith d ".com"
    then Raise (Gaierror "[Errno -2] Name or service not known")
    else Ok "192.0.2.1";
  urlopen := fun _ => answer;
  now := "2025-01-01T00:00:00"
|}.

(** An item of ['best_opportunities']. *)
Record opportunity_t : Type := {
  opp_name : string;
  com_available : bool;
  total_available : nat;
  best_com : option string;
  alternatives : list string
}.

Record summary_t : Type := {
  names_with_com : list (string * option string);
  best_opportunities : list opportunity_t
}.

Record all_results_t : Type := {
  timestamp : string;
  total_names : nat;
  business_results : list business_results_t;
  summary : summary_t
}.

(** The body of [for name in self.candidate_names], on the triple
    (['business_results'], ['names_with_com'], ['best_opportunities']). *)
Definition track (w : world) (self : checker)
  (acc : list business_results_t * list (string * option string)
         * list opportunity_t) (name : string)
  : list business_results_t * list (string * option string)
    * list opportunity_t :=
  let '(results, with_com, best) := acc in
  match check_business_name w self name with
  | Raise _ => acc
  | Ok business_result =>
      let results := (results ++ [business_result])%list in
      let with_com :=
        if truthy_str (best_com_option business_result)
        then (with_com ++ [(name, best_com_option business_result)])%list
        else with_com in
      (results, with_com,
       (best ++ [{| opp_name := name;
                    com_available :=
                      is_not_None (best_com_option business_result);
                    total_available :=
                      List.length (available_domains business_result);
                    best_com := best_com_option business_result;
                    alternatives :=
                      firstn 2 (best_alternatives business_result) |}])%list)
  end.

(** [key=lambda x: (x['com_available'], x['total_available'])] *)
Definition opportunity_key (x : opportunity_t) : bool * nat :=
  (com_available x, total_available x).

Definition opportunity_lt : bool * nat -> bool * nat -> bool :=
  pair_lt Bool.eqb bool_lt Nat.ltb.

(** The report on the name has a best [.com] option. *)
Definition has_com_option (w : world) (self : checker) (name : string)
  : bool :=
  match check_business_name w self name with
  | Ok r => truthy_str (best_com_option r)
  | Raise _ => false
  end.

(** What an entry of the ranking says about its name: whether a [.com]
    domain is among the name's likely available domains, and how many such
    domains there are. *)
Definition opportunity_ok (w : world) (self : checker) (o : opportunity_t)
  : Prop :=
  exists r,
    check_business_name w self (opp_name o) = Ok r /\
    com_available o = existsb is_com (available_domains r) /\
    total_available o = List.length (available_domains r).

Definition run_check (w : world) (self : checker) : all_results_t :=
  let '(results, with_com, best) :=
    fold_left (track w self) (candidate_names self) ([], [], []) in
  {| timestamp := now w;
     total_names := List.length (candidate_names self);
     business_results := results;
     summary := {|
       names_with_com := with_com;
       best_opportunities := sort_desc opportunity_lt opportunity_key best
     |} |}.

(** A line of the list of [.com] opportunities. *)
Definition com_line (item : nat * opportunity_t) : string :=
  rjust 2 (str_int (Z.of_nat (fst item))) ++ ". "
  ++ ljust 12 (opp_name (snd item)) ++ " ‚Üí " ++ str_opt (best_com (snd item)).

(** A line of the overall list. *)
Definition overall_line (item : nat * opportunity_t) : string :=
  let opp := snd item in
  let com_status := if com_available opp then "‚úÖ .COM" else "‚ùå no .COM" in
  let alts :=
    match alternatives opp with
    | [] => ""
    | _ :: _ => " | Alt: " ++ String.concat ", " (alternatives opp)
    end in
  rjust 2 (str_int (Z.of_nat (fst item))) ++ ". "
  ++ ljust 12 (opp_name opp) ++ " ("
  ++ str_int (Z.of_nat (total_available opp)) ++ " available) - "
  ++ com_status ++ alts.

(** The lines up to the recommendations. *)
Definition report_head (results : all_results_t) : list string :=
  let best := best_opportunities (summary results) in
  let com_opportunities := filter com_available best in
  ([str_times "=" 80;
    "üèÜ DOMAIN AVAILABILITY SUMMARY REPORT";
    str_times "=" 80;
    ("Generated: " ++ timestamp results)%string;
    ("Total Business Names Analyzed: "
     ++ str_int (Z.of_nat (total_names results)))%string;
    ("Names with .COM Available: "
     ++ str_int (Z.of_nat (List.length (names_with_com (summary results)))))%string;
    "";
    "üéØ BEST .COM OPPORTUNITIES:";
    str_times "-" 40]
   ++ match com_opportunities with
      | [] => ["   No .COM domains appear to be available"]
      | _ :: _ => map com_line (enumerate1 (firstn 10 com_opportunities))
      end
   ++ [""; "üìä OVERALL BEST OPPORTUNITIES (by total available domains):"; str_times "-" 60]
   ++ map overall_line (enumerate1 (firstn 15 best))
   ++ [""; "üí° QUICK RECOMMENDATIONS:"; str_times "-" 30])%list.

(** The recommendation lines; [best_opportunities[0]] raises on an empty
    ranking. *)
Definition report_choice (results : all_results_t) : result (list string) :=
  let best := best_opportunities (summary results) in
  let com_opportunities := filter com_available best in
  match com_opportunities with
  | top_com :: rest =>
      Ok (("‚Ä¢ PRIMARY CHOICE: " ++ opp_name top_com ++ " ‚Üí "
           ++ str_opt (best_com top_com))
          :: match rest with
             | second_com :: _ =>
                 ["‚Ä¢ BACKUP CHOICE: " ++ opp_name second_com ++ " ‚Üí "
                  ++ str_opt (best_com second_com)]
             | [] => []
             end)
  | [] =>
      match best with
      | top_overall :: _ =>
          Ok ["‚Ä¢ BEST OVERALL: " ++ opp_name top_overall
              ++ " (no .COM, but "
              ++ str_int (Z.of_nat (total_available top_overall))
              ++ " alternatives)"]
      | [] => Raise (IndexError "list index out of range")
      end
  end.

Definition newline : string := String (ascii_of_nat 10) EmptyString.

Definition generate_summary_report (results : all_results_t)
  : result string :=
  choice <- report_choice results ;;
  Ok (String.concat newline (report_head results ++ choice)).

End SimpleDomainChecker.

(** * Properties *)

(** ** The runtime fragment on sample inputs *)

Example lower_ACME : lower "ACME" = "acme".
Proof. reflexivity. Qed.

Example str_in_no_match : str_in "No match" "No match for domain X" = true.
Proof. reflexivity. Qed.

Example str_in_absent : str_in "not found" "quota exceeded" = false.
Proof. reflexivity. Qed.

Example endswith_com : endswith "acmehq.com" ".com" = true.
Proof. reflexivity. Qed.

Example endswith_short : endswith "com" ".com" = false.
Proof. reflexivity. Qed.

Example str_int_404 : str_int 404 = "404".
Proof. reflexivity. Qed.

Example sort_desc_stable_sample :
  sort_desc Nat.ltb fst [(1, "a"); (2, "b"); (1, "c"); (2, "d")]%nat
  = [(2, "b"); (2, "d"); (1, "a"); (1, "c")]%nat.
Proof. reflexivity. Qed.

(** ** The sort *)

(** A sublist of one class that is split around an item splits the list. *)
Lemma filter_eq_app_cons {A} (p : A -> bool) (l : list A) :
  forall (u : list A) (x : A) (v : list A),
    filter p l = (u ++ x :: v)%list ->
    exists l1 l2,
      l = (l1 ++ x :: l2)%list /\ filter p l1 = u /\ filter p l2 = v.
Proof.
  induction l as [|a l IH]; intros u x v E; simpl in E.
  - destruct u; discriminate.
  - destruct (p a) eqn:Pa.
    + destruct u as [|b u]; simpl in E.
      * injection E as <- <-. exists [], l. simpl. auto.
      * injection E as <- E.
        destruct (IH _ _ _ E) as (l1 & l2 & -> & H1 & H2).
        exists (a :: l1), l2. simpl. rewrite Pa, H1. auto.
    + destruct (IH _ _ _ E) as (l1 & l2 & -> & H1 & H2).
      exists (a :: l1), l2. simpl. rewrite Pa. auto.
Qed.

Section SortFacts.
Context {A K : Type}.
Variable lt : K -> K -> bool.
Variable key : A -> K.

(** [lt] is a strict weak order: asymmetric, and "not smaller" is
    transitive. *)
Hypothesis lt_asym : forall a b, lt a b = true -> lt b a = false.
Hypothesis lt_negtrans :
  forall a b c, lt a b = false -> lt b c = false -> lt a c = false.

Lemma insert_desc_perm (x : A) (l : list A) :
  Permutation (insert_desc lt key x l) (x :: l).
Proof.
  induction l as [|y l IH]; simpl.
  - apply Permutation_refl.
  - destruct (lt (key x) (key y)).
    + apply perm_trans with (y :: x :: l).
      * apply perm_skip, IH.
      * apply perm_swap.
    + apply Permutation_refl.
Qed.

Lemma sort_desc_perm (l : list A) : Permutation (sort_desc lt key l) l.
Proof.
  induction l as [|x l IH]; simpl.
  - constructor.
  - eapply perm_trans; [apply insert_desc_perm|].
    apply perm_skip, IH.
Qed.

Lemma insert_desc_sorted (x : A) (l : list A) :
  StronglySorted (desc_ok lt key) l ->
  StronglySorted (desc_ok lt key) (insert_desc lt key x l).
Proof.
  induction l as [|y l IH]; simpl; intros Hs.
  - repeat constructor.
  - inversion Hs as [|? ? Hl Hy]; subst.
    destruct (lt (key x) (key y)) eqn:E.
    + constructor; [apply IH, Hl|].
      apply Forall_forall. intros z Hz.
      apply (Permutation_in _ (insert_desc_perm x l)) in Hz.
      destruct Hz as [<-|Hz].
      * apply lt_asym, E.
      * rewrite Forall_forall in Hy. apply Hy, Hz.
    + constructor; [exact Hs|].
      constructor; [exact E|].
      apply Forall_forall. intros z Hz.
      rewrite Forall_forall in Hy.
      apply lt_negtrans with (key y); [exact E | apply Hy, Hz].
Qed.

Lemma sort_desc_sorted (l : list A) :
  StronglySorted (desc_ok lt key) (sort_desc lt key l).
Proof.
  induction l as [|x l IH]; simpl.
  - constructor.
  - apply insert_desc_sorted, IH.
Qed.

(** Items of one key class never pass each other. *)
Lemma insert_desc_stable (k : K) (x : A) (l : list A) :
  filter (fun a => key_equiv lt k (key a)) (insert_desc lt key x l)
  = filter (fun a => key_equiv lt k (key a)) (x :: l).
Proof.
  induction l as [|y l IH]; [reflexivity|].
  simpl insert_desc.
  destruct (lt (key x) (key y)) eqn:E; [|reflexivity].
  simpl filter in *. rewrite IH.
  destruct (key_equiv lt k (key x)) eqn:Ex;
    destruct (key_equiv lt k (key y)) eqn:Ey; try reflexivity.
  unfold key_equiv in Ex, Ey.
  apply andb_true_iff in Ex, Ey.
  destruct Ex as [_ Ex], Ey as [Ey _].
  apply negb_true_iff in Ex, Ey.
  rewrite (lt_negtrans _ _ _ Ex Ey) in E. discriminate.
Qed.

Lemma sort_desc_stable (k : K) (l : list A) :
  filter (fun a => key_equiv lt k (key a)) (sort_desc lt key l)
  = filter (fun a => key_equiv lt k (key a)) l.
Proof.
  induction l as [|x l IH]; [reflexivity|].
  simpl sort_desc. rewrite insert_desc_stable.
  simpl. rewrite IH. reflexivity.
Qed.

(** The head of the sorted list is an item no other item beats. *)
Lemma sort_desc_head (l : list A) (best : A) (rest : list A) :
  sort_desc lt key l = best :: rest ->
  In best l /\ forall x, In x l -> lt (key best) (key x) = false.
Proof.
  intros E.
  pose proof (sort_desc_perm l) as P.
  pose proof (sort_desc_sorted l) as S.
  rewrite E in P, S.
  split.
  - apply (Permutation_in _ P). left. reflexivity.
  - intros x Hx.
    apply (Permutation_in _ (Permutation_sym P)) in Hx.
    inversion S as [|? ? _ Hb]; subst.
    destruct Hx as [<-|Hx].
    + destruct (lt (key best) (key best)) eqn:F; [|reflexivity].
      rewrite (lt_asym _ _ F) in F. discriminate.
    + rewrite Forall_forall in Hb. apply Hb, Hx.
Qed.

Lemma lt_irrefl (a : K) : lt a a = false.
Proof.
  destruct (lt a a) eqn:F; [|reflexivity].
  rewrite (lt_asym _ _ F) in F. discriminate.
Qed.

(** Stability, item by item: two items of one key class that stand in
    some order in the list stand in that order in the sorted list. *)
Lemma sort_desc_keeps_order (l : list A) (x y : A) (pre mid post : list A) :
  key_equiv lt (key x) (key y) = true ->
  l = (pre ++ x :: mid ++ y :: post)%list ->
  exists pre' mid' post',
    sort_desc lt key l = (pre' ++ x :: mid' ++ y :: post')%list.
Proof.
  intros Hxy ->.
  pose proof (sort_desc_stable (key x) (pre ++ x :: mid ++ y :: post)) as S.
  rewrite filter_app in S. cbn [filter] in S.
  assert (Hxx : key_equiv lt (key x) (key x) = true)
    by (unfold key_equiv; rewrite lt_irrefl; reflexivity).
  rewrite Hxx, filter_app in S. cbn [filter] in S. rewrite Hxy in S.
  apply filter_eq_app_cons in S. destruct S as (l1 & l2 & E & _ & S).
  apply filter_eq_app_cons in S. destruct S as (l3 & l4 & -> & _ & _).
  exists l1, l3, l4. exact E.
Qed.
End SortFacts.

(** Two keys whose comparisons agree on the items of a list sort it alike. *)
Lemma insert_desc_ext {A K1 K2} (lt1 : K1 -> K1 -> bool) (key1 : A -> K1)
  (lt2 : K2 -> K2 -> bool) (key2 : A -> K2) (x : A) (l : list A) :
  (forall y, In y l -> lt1 (key1 x) (key1 y) = lt2 (key2 x) (key2 y)) ->
  insert_desc lt1 key1 x l = insert_desc lt2 key2 x l.
Proof.
  induction l as [|y l IH]; intros H; [reflexivity|].
  simpl. rewrite (H y (or_introl eq_refl)), IH; [reflexivity|].
  intros z Hz. apply H. right. exact Hz.
Qed.

Lemma sort_desc_ext {A K1 K2} (lt1 : K1 -> K1 -> bool) (key1 : A -> K1)
  (lt2 : K2 -> K2 -> bool) (key2 : A -> K2) (l : list A) :
  (forall x y, In x l -> In y l ->
               lt1 (key1 x) (key1 y) = lt2 (key2 x) (key2 y)) ->
  sort_desc lt1 key1 l = sort_desc lt2 key2 l.
Proof.
  induction l as [|x l IH]; intros H; [reflexivity|].
  simpl. rewrite <- IH.
  - apply insert_desc_ext. intros y Hy.
    apply H; [left; reflexivity | right].
    apply (Permutation_in _ (sort_desc_perm lt1 key1 l)), Hy.
  - intros a b Ha Hb. apply H; right; assumption.
Qed.

Lemma StronglySorted_weaken {A} (R R' : A -> A -> Prop) (l : list A) :
  (forall x y, R x y -> R' x y) ->
  StronglySorted R l -> StronglySorted R' l.
Proof.
  intros W. induction 1 as [|x l _ IH F]; constructor; [exact IH|].
  eapply Forall_impl; [|exact F]. intros y. apply W.
Qed.

(** The orders of the keys are strict weak orders. *)
Lemma bool_lt_asym a b : bool_lt a b = true -> bool_lt b a = false.
Proof. destruct a, b; unfold bool_lt; simpl; congruence. Qed.

Lemma bool_lt_negtrans a b c :
  bool_lt a b = false -> bool_lt b c = false -> bool_lt a c = false.
Proof. destruct a, b, c; unfold bool_lt; simpl; congruence. Qed.

Lemma nat_lt_asym a b : (a <? b)%nat = true -> (b <? a)%nat = false.
Proof. rewrite Nat.ltb_lt, Nat.ltb_ge. lia. Qed.

Lemma nat_lt_negtrans a b c :
  (a <? b)%nat = false -> (b <? c)%nat = false -> (a <? c)%nat = false.
Proof. rewrite !Nat.ltb_ge. lia. Qed.

Lemma Q_lt_false a b : Q_lt a b = false <-> (b <= a)%Q.
Proof.
  unfold Q_lt. rewrite negb_false_iff. apply Qle_bool_iff.
Qed.

Lemma Q_lt_true a b : Q_lt a b = true <-> (a < b)%Q.
Proof.
  unfold Q_lt. rewrite negb_true_iff, <- not_true_iff_false, Qle_bool_iff.
  split; [apply Qnot_le_lt | apply Qlt_not_le].
Qed.

Lemma Q_lt_asym a b : Q_lt a b = true -> Q_lt b a = false.
Proof. rewrite Q_lt_true, Q_lt_false. apply Qlt_le_weak. Qed.

Lemma Q_lt_negtrans a b c :
  Q_lt a b = false -> Q_lt b c = false -> Q_lt a c = false.
Proof.
  rewrite !Q_lt_false. intros H1 H2. apply Qle_trans with b; assumption.
Qed.

Section PairOrder.
Context {Y : Type}.
Variable lty : Y -> Y -> bool.
Hypothesis lty_asym : forall a b, lty a b = true -> lty b a = false.
Hypothesis lty_negtrans :
  forall a b c, lty a b = false -> lty b c = false -> lty a c = false.

Lemma pair_lt_asym (a b : bool * Y) :
  pair_lt Bool.eqb bool_lt lty a b = true ->
  pair_lt Bool.eqb bool_lt lty b a = false.
Proof.
  destruct a as [[] a], b as [[] b]; unfold pair_lt, bool_lt; simpl;
    try congruence; apply lty_asym.
Qed.

Lemma pair_lt_negtrans (a b c : bool * Y) :
  pair_lt Bool.eqb bool_lt lty a b = false ->
  pair_lt Bool.eqb bool_lt lty b c = false ->
  pair_lt Bool.eqb bool_lt lty a c = false.
Proof.
  destruct a as [[] a], b as [[] b], c as [[] c];
    unfold pair_lt, bool_lt; simpl; try congruence; apply lty_negtrans.
Qed.

(** Keys of one class: the same flag, and second components that
    compare equal. *)
Lemma pair_key_equiv (a b : bool * Y) :
  key_equiv (pair_lt Bool.eqb bool_lt lty) a b = true <->
  fst a = fst b /\ key_equiv lty (snd a) (snd b) = true.
Proof.
  destruct a as [[] a], b as [[] b]; unfold key_equiv, pair_lt, bool_lt;
    simpl; intuition congruence.
Qed.
End PairOrder.

(** ** [DomainAvailabilityChecker]: the signal checks *)

Module CheckerFacts.
Import DomainAvailabilityChecker.

(** C6.  The DNS check maps the resolver's outcome to a verdict: an answer
    gives Exists; NXDOMAIN gives DoesNotExist; NoAnswer gives Exists; every
    other exception gives Unknown with the exception's text in the reason.
    Whatever the resolver does, the check returns and does not raise. *)
Theorem check_dns_resolution_mapping (w : world) (domain : string) :
  returns (check_dns_resolution w domain) /\
  match dns_resolve w domain with
  | Ok _ =>
      check_dns_resolution w domain = Ok (Some true, "Domain resolves")
  | Raise (NXDOMAIN _) =>
      check_dns_resolution w domain
      = Ok (Some false, "NXDOMAIN - Domain does not exist")
  | Raise (NoAnswer _) =>
      check_dns_resolution w domain
      = Ok (Some true, "Domain exists but no A record")
  | Raise e =>
      check_dns_resolution w domain
      = Ok (None, "DNS check failed: " ++ str_exn e)
  end.
Proof.
  unfold check_dns_resolution, returns.
  destruct (dns_resolve w domain) as [u|e]; simpl.
  - split; [eexists|]; reflexivity.
  - destruct e; simpl; split; solve [eexists; reflexivity | reflexivity].
Qed.

(** C7.  The WHOIS check gives DoesNotExist when the entry has no domain
    name and when the parser's error says "No match" or "not found"; gives
    Exists with the creation date in the reason (the first date when the
    field is a list) when an entry with a creation date comes back; gives
    Unknown with the error text for every other exception, the indexing
    of an empty date list included.  It returns and does not raise. *)
Theorem check_whois_mapping (w : world) (domain : string) :
  returns (check_whois w domain) /\
  match whois_whois w domain with
  | Ok e =>
      match domain_name e, creation_date e with
      | None, _ =>
          check_whois w domain
          = Ok (Some false, "Domain available (no WHOIS record)")
      | Some _, DateOne d | Some _, DateList (d :: _) =>
          check_whois w domain = Ok (Some true, "Domain registered on " ++ d)
      | Some _, DateNone =>
          check_whois w domain = Ok (Some true, "Domain registered on None")
      | Some _, DateList [] =>
          check_whois w domain
          = Ok (None, "WHOIS check failed: list index out of range")
      end
  | Raise (PywhoisError m) =>
      if str_in "No match" m || str_in "not found" (lower m)
      then check_whois w domain
           = Ok (Some false, "Domain available (WHOIS: No match)")
      else check_whois w domain = Ok (None, "WHOIS error: " ++ m)
  | Raise e =>
      check_whois w domain = Ok (None, "WHOIS check failed: " ++ str_exn e)
  end.
Proof.
  unfold check_whois, returns.
  destruct (whois_whois w domain) as [[name date]|e]; simpl.
  - destruct name as [n|]; [|split; [eexists|]; reflexivity].
    destruct date as [|d|[|d ds]]; simpl; split;
      solve [eexists; reflexivity | reflexivity].
  - destruct e; simpl; try (split; [eexists|]; reflexivity).
    destruct (str_in "No match" msg || str_in "not found" (lower msg));
      split; solve [eexists; reflexivity | reflexivity].
Qed.

(** The loop over the protocols ends with a verdict that is not Unknown. *)
Lemma http_loop_decides (w : world) (domain : string) (protocols : list string) :
  exists (b : bool) (reason : string),
    http_loop w domain protocols = Ok (Some b, reason).
Proof.
  induction protocols as [|protocol rest IH]; simpl.
  - do 2 eexists; reflexivity.
  - destruct (session_get w (protocol ++ domain)) as [status|e]; simpl.
    + destruct (status =? 200)%Z; [do 2 eexists; reflexivity|].
      destruct (status =? 404)%Z; do 2 eexists; reflexivity.
    + destruct e; exact IH.
Qed.

(** A protocol whose request raises is skipped. *)
Lemma http_loop_skip (w : world) (domain protocol : string)
  (rest : list string) (e : exn) :
  session_get w (protocol ++ domain) = Raise e ->
  http_loop w domain (protocol :: rest) = http_loop w domain rest.
Proof.
  intros E. simpl. rewrite E. destruct e; reflexivity.
Qed.

(** C3.  When the request fails to connect (connection error or timeout) on
    the secure and on the insecure scheme, the HTTP check returns
    DoesNotExist with the text for "no HTTP response", not Unknown. *)
Theorem check_http_response_no_response (w : world) (domain : string) :
  fails_to_connect (session_get w ("https://" ++ domain)) ->
  fails_to_connect (session_get w ("http://" ++ domain)) ->
  check_http_response w domain
  = Ok (Some false, "No HTTP response (likely available)").
Proof.
  intros [m1 H1] [m2 H2]. unfold check_http_response.
  destruct H1 as [H1|H1], H2 as [H2|H2];
    rewrite (http_loop_skip _ _ _ _ _ H1), (http_loop_skip _ _ _ _ _ H2);
    reflexivity.
Qed.

Lemma check_http_response_no_response_witness :
  fails_to_connect
    (session_get (empty_internet submission_order)
                 ("https://" ++ "free123xyz.com")) /\
  fails_to_connect
    (session_get (empty_internet submission_order)
                 ("http://" ++ "free123xyz.com")) /\
  check_http_response (empty_internet submission_order) "free123xyz.com"
  = Ok (Some false, "No HTTP response (likely available)").
Proof.
  assert (F : forall url,
             fails_to_connect
               (session_get (empty_internet submission_order) url)).
  { intros url. eexists. left. reflexivity. }
  split; [apply F|]. split; [apply F|].
  apply (check_http_response_no_response
           (empty_internet submission_order) "free123xyz.com");
    apply F.
Defined.

(** C9.  Whatever the session does on either scheme (any status code, any
    exception), the HTTP check returns Exists or DoesNotExist with a
    reason; it never returns Unknown and never raises. *)
Theorem check_http_response_decides (w : world) (domain : string) :
  exists (b : bool) (reason : string),
    check_http_response w domain = Ok (Some b, reason).
Proof.
  apply http_loop_decides.
Qed.

End CheckerFacts.

(** ** [DomainAvailabilityChecker]: the aggregation *)

Module AggregatorFacts.
Import DomainAvailabilityChecker.

Ltac each_verdict v :=
  let r := fresh "reason" in destruct v as [[[]|] r].

Ltac settle_Q :=
  unfold Qeq, Qle, Qlt in *; simpl in *; try lia.

(** C1.  When at least one of the three signals is conclusive, the score is
    the share of DoesNotExist among the conclusive signals, times 100; a
    score of 100 gives likely available with confidence High; a score from
    67 up to 100 excluded gives likely available with confidence Medium; a
    score under 67 gives not likely available with confidence Low.  Three
    DoesNotExist signals give likely available, High and 100. *)
Theorem assess_scores (domain timestamp : string) (dns whois http : verdict) :
  let signals := [dns; whois; http] in
  let a := assess domain timestamp
                  [("dns", dns); ("whois", whois); ("http", http)] in
  (0 < conclusive signals)%nat ->
  (exists score,
      availability_score a = Some score /\ score == vote_share signals) /\
  (vote_share signals == 100 ->
   likely_available a = Some true /\ confidence a = "High") /\
  (67 <= vote_share signals /\ vote_share signals < 100 ->
   likely_available a = Some true /\ confidence a = "Medium") /\
  (vote_share signals < 67 ->
   likely_available a = Some false /\ confidence a = "Low") /\
  (fst dns = Some false -> fst whois = Some false -> fst http = Some false ->
   likely_available a = Some true /\ confidence a = "High" /\
   exists score, availability_score a = Some score /\ score == 100).
Proof.
  each_verdict dns; each_verdict whois; each_verdict http;
    cbv zeta; intros Hpos.
  all: try (exfalso; vm_compute in Hpos; lia).
  all: repeat split.
  all: try (eexists; split; [reflexivity|]).
  all: try (intros; discriminate).
  all: try reflexivity.
  all: try (intros; exfalso; settle_Q; fail).
Qed.

Lemma assess_scores_witness :
  (0 < conclusive [(Some false, "NXDOMAIN - Domain does not exist");
                   (Some false, "Domain available (WHOIS: No match)");
                   (Some false, "No HTTP response (likely available)")])%nat
  /\
  let a := assess "free123xyz.com" "2025-01-01T00:00:00"
             [("dns", (Some false, "NXDOMAIN - Domain does not exist"));
              ("whois", (Some false, "Domain available (WHOIS: No match)"));
              ("http", (Some false, "No HTTP response (likely available)"))]
  in
  likely_available a = Some true /\ confidence a = "High".
Proof.
  assert (H : (0 < conclusive
                     [(Some false, "NXDOMAIN - Domain does not exist");
                      (Some false, "Domain available (WHOIS: No match)");
                      (Some false, "No HTTP response (likely available)")])%nat)
    by (vm_compute; lia).
  split; [exact H|].
  destruct (assess_scores "free123xyz.com" "2025-01-01T00:00:00"
              (Some false, "NXDOMAIN - Domain does not exist")
              (Some false, "Domain available (WHOIS: No match)")
              (Some false, "No HTTP response (likely available)") H)
    as (_ & _ & _ & _ & A).
  destruct (A eq_refl eq_refl eq_refl) as (L & C & _).
  split; assumption.
Defined.

(** C2.  When the three signals are all Unknown, likely available is
    [None] (neither true nor false), the confidence is Unknown and no
    score is recorded. *)
Theorem assess_all_unknown (domain timestamp : string)
  (dns_msg whois_msg http_msg : string) :
  let a := assess domain timestamp
                  [("dns", (None, dns_msg)); ("whois", (None, whois_msg));
                   ("http", (None, http_msg))] in
  likely_available a = None /\
  likely_available a <> Some true /\
  likely_available a <> Some false /\
  confidence a = "Unknown" /\
  availability_score a = None.
Proof.
  cbv zeta. unfold assess. simpl.
  repeat split; discriminate.
Qed.

(** Two DoesNotExist signals out of three conclusive ones score 200/3,
    which is under 67. *)
Lemma assess_two_of_three (domain timestamp : string) (r1 r2 r3 : string) :
  let a := assess domain timestamp
                  [("dns", (Some true, r1)); ("whois", (Some false, r2));
                   ("http", (Some false, r3))] in
  likely_available a = Some false /\ confidence a = "Low".
Proof. split; reflexivity. Qed.

(** A name that resolves and answers with 200 while WHOIS fails: two
    conclusive signals, none for availability. *)
Example assess_taken :
  let a := assess "taken.com" "2025-01-01T00:00:00"
             [("dns", (Some true, "Domain resolves"));
              ("whois", (None, "WHOIS check failed: timed out"));
              ("http", (Some true, "Active website (https://) - Status: 200"))]
  in
  likely_available a = Some false /\ confidence a = "Low" /\
  exists q, availability_score a = Some q /\ q == 0.
Proof.
  repeat split. eexists. split; reflexivity.
Qed.

(** The whole per-domain check where nothing is registered. *)
Example comprehensive_domain_check_free :
  exists a,
    comprehensive_domain_check (empty_internet submission_order)
                               "free123xyz.com" = Ok a /\
    map (fun c => fst (snd c)) (a_checks a)
    = [Some false; Some false; Some false] /\
    likely_available a = Some true /\ confidence a = "High" /\
    exists q, availability_score a = Some q /\ q == 100.
Proof.
  eexists. split; [reflexivity|].
  repeat split. eexists. split; reflexivity.
Qed.

End AggregatorFacts.

(** ** Floats and their rational model *)

Module FloatModel.
Import DomainAvailabilityChecker.

(** Three checks tally to one of the reachable pairs, or to no conclusive
    check at all. *)
Lemma tally_reachable (dns whois http : verdict) :
  let t := fold_left tally [("dns", dns); ("whois", whois); ("http", http)]
                     (0, 0)%Z in
  snd t = 0%Z \/ In t reachable_tallies.
Proof.
  destruct dns as [[[]|] ?], whois as [[[]|] ?], http as [[[]|] ?];
    cbv zeta; simpl; tauto.
Qed.

(** On every reachable pair the tests [>= 67] and [== 100] give the same
    answer on the float and on the rational, and so do [<] and [==]
    between the percentages of two reachable pairs. *)
Lemma float_model_adequate :
  forallb
    (fun p =>
       Bool.eqb (PrimFloat.leb (PrimFloat.of_uint63 67%uint63)
                               (float_percentage (fst p) (snd p)))
                (Qle_bool 67 (exact_percentage (fst p) (snd p)))
       && Bool.eqb (PrimFloat.eqb (float_percentage (fst p) (snd p))
                                  (PrimFloat.of_uint63 100%uint63))
                   (Qeq_bool (exact_percentage (fst p) (snd p)) 100)
       && forallb
            (fun q =>
               Bool.eqb (PrimFloat.ltb (float_percentage (fst p) (snd p))
                                       (float_percentage (fst q) (snd q)))
                        (Q_lt (exact_percentage (fst p) (snd p))
                              (exact_percentage (fst q) (snd q)))
               && Bool.eqb (PrimFloat.eqb (float_percentage (fst p) (snd p))
                                          (float_percentage (fst q) (snd q)))
                           (Qeq_bool (exact_percentage (fst p) (snd p))
                                     (exact_percentage (fst q) (snd q))))
            reachable_tallies)
    reachable_tallies
  = true.
Proof. vm_compute. reflexivity. Qed.

End FloatModel.

(** ** [DomainAvailabilityChecker]: the variations *)

Module GeneratorFacts.
Import DomainAvailabilityChecker.

Lemma append_empty_r (s : string) : s ++ "" = s.
Proof. induction s as [|c s IH]; simpl; [|rewrite IH]; reflexivity. Qed.

Lemma domain_name_append (base suffix : string) :
  (if nonempty suffix then base ++ suffix else base) = base ++ suffix.
Proof.
  destruct suffix; simpl; [symmetry; apply append_empty_r | reflexivity].
Qed.

Lemma extensions_loop (domain_name : string) (exts acc : list string) :
  fold_left
    (fun variations ext => (variations ++ [(domain_name ++ ext)%string])%list)
    exts acc
  = (acc ++ map (fun ext => (domain_name ++ ext)%string) exts)%list.
Proof.
  revert acc. induction exts as [|ext exts IH]; intros acc; simpl.
  - rewrite app_nil_r. reflexivity.
  - rewrite IH, <- app_assoc. reflexivity.
Qed.

Lemma suffixes_loop (base : string) (exts sufs acc : list string) :
  fold_left
    (fun variations suffix =>
       let domain_name :=
         if nonempty suffix then base ++ suffix else base in
       fold_left
         (fun variations ext =>
            (variations ++ [(domain_name ++ ext)%string])%list)
         exts variations)
    sufs acc
  = (acc ++ flat_map
              (fun suffix =>
                 map (fun ext => ((base ++ suffix) ++ ext)%string) exts)
              sufs)%list.
Proof.
  revert acc. induction sufs as [|suffix sufs IH]; intros acc; simpl.
  - rewrite app_nil_r. reflexivity.
  - rewrite IH, extensions_loop, domain_name_append, <- app_assoc.
    reflexivity.
Qed.

Lemma variations_spec_length (name : string) (sufs exts : list string) :
  List.length (variations_spec name sufs exts)
  = (List.length sufs * List.length exts)%nat.
Proof.
  unfold variations_spec.
  induction sufs as [|suffix sufs IH]; simpl; [reflexivity|].
  rewrite length_app, length_map, IH. reflexivity.
Qed.

(** C4.  The generator returns the product-order sequence of
    lowercase(name) + suffix + extension, suffixes outermost; its length is
    the number of suffixes times the number of extensions; two calls on the
    same inputs give the same sequence; and "ACME" with suffixes "", "hq"
    and extensions ".com", ".io" gives acme.com, acme.io, acmehq.com,
    acmehq.io. *)
Theorem generate_domain_variations_product
  (names sufs exts : list string) (name : string) :
  let self := {| candidate_names := names; extensions := exts;
                 suffixes := sufs |} in
  generate_domain_variations self name = variations_spec name sufs exts /\
  List.length (generate_domain_variations self name)
  = (List.length sufs * List.length exts)%nat /\
  (let first := generate_domain_variations self name in
   let second := generate_domain_variations self name in
   first = second) /\
  generate_domain_variations
    {| candidate_names := names; extensions := [".com"; ".io"];
       suffixes := [""; "hq"] |} "ACME"
  = ["acme.com"; "acme.io"; "acmehq.com"; "acmehq.io"].
Proof.
  cbv zeta.
  assert (E : generate_domain_variations
                {| candidate_names := names; extensions := exts;
                   suffixes := sufs |} name
              = variations_spec name sufs exts).
  { unfold generate_domain_variations. simpl.
    rewrite suffixes_loop. reflexivity. }
  repeat split.
  - exact E.
  - rewrite E. apply variations_spec_length.
Qed.

End GeneratorFacts.

(** ** [DomainAvailabilityChecker]: collecting the assessments *)

Module OrchestratorFacts.
Import DomainAvailabilityChecker.

Lemma check_dns_resolution_returns (w : world) (domain : string) :
  returns (check_dns_resolution w domain).
Proof.
  unfold check_dns_resolution, returns.
  destruct (dns_resolve w domain) as [u|e]; simpl; [eexists; reflexivity|].
  destruct e; eexists; reflexivity.
Qed.

Lemma check_whois_returns (w : world) (domain : string) :
  returns (check_whois w domain).
Proof.
  unfold check_whois, returns.
  destruct (whois_whois w domain) as [[name date]|e]; simpl.
  - destruct name; [|eexists; reflexivity].
    destruct date as [|d|[|d ds]]; eexists; reflexivity.
  - destruct e; try (eexists; reflexivity).
    destruct (_ || _); eexists; reflexivity.
Qed.

(** The per-domain check returns the aggregate of its three verdicts, the
    HTTP one conclusive. *)
Lemma comprehensive_domain_check_returns (w : world) (domain : string) :
  exists dns whois b reason,
    comprehensive_domain_check w domain
    = Ok (assess domain (now w)
                 [("dns", dns); ("whois", whois); ("http", (Some b, reason))]).
Proof.
  unfold comprehensive_domain_check.
  destruct (check_dns_resolution_returns w domain) as [dns ->].
  destruct (check_whois_returns w domain) as [whois ->].
  destruct (CheckerFacts.http_loop_decides w domain ["https://"; "http://"])
    as (b & reason & E).
  unfold check_http_response. rewrite E. simpl.
  exists dns, whois, b, reason. reflexivity.
Qed.

(** A score is recorded exactly when the verdict is not [None]. *)
Lemma assess_shape (domain timestamp : string)
  (checks : list (string * verdict)) :
  match likely_available (assess domain timestamp checks) with
  | Some _ =>
      exists q, availability_score (assess domain timestamp checks) = Some q
  | None => availability_score (assess domain timestamp checks) = None
  end.
Proof.
  unfold assess.
  destruct (fold_left tally checks (0, 0)%Z) as [score total].
  destruct (total >? 0)%Z; [|reflexivity].
  destruct (Qle_bool _ _); simpl; eexists; reflexivity.
Qed.

Lemma future_sound (w : world) (domain : string) :
  sound (domain, comprehensive_domain_check w domain).
Proof.
  destruct (comprehensive_domain_check_returns w domain)
    as (dns & whois & b & reason & E).
  rewrite E. eexists. split; [reflexivity|].
  intros T. pose proof (assess_shape domain (now w)
    [("dns", dns); ("whois", whois); ("http", (Some b, reason))]) as S.
  destruct (likely_available _); [exact S | discriminate].
Qed.

Lemma futures_sound (w : world) (variations : list string) :
  Forall sound (future_to_domain w variations).
Proof.
  unfold future_to_domain. apply Forall_forall. intros f Hf.
  apply in_map_iff in Hf. destruct Hf as (d & <- & _).
  apply future_sound.
Qed.

(** One turn over a sound future appends its domain to one list. *)
Lemma collect_sound (future : string * result assessment)
  (checked : list assessment) (available : list option_t)
  (registered : list string) :
  sound future ->
  exists checked' available',
    collect (checked, available, registered) future
    = (checked', available',
       if is_available future then registered
       else (registered ++ [fst future])%list) /\
    map o_domain available'
    = if is_available future
      then (map o_domain available ++ [fst future])%list
      else map o_domain available.
Proof.
  destruct future as [domain outcome]. intros (a & E & S).
  simpl in E. subst outcome. unfold collect, is_available. simpl.
  destruct (truthy (likely_available a)) eqn:T.
  - destruct (S eq_refl) as [q ->].
    do 2 eexists. split; [reflexivity|].
    rewrite map_app. reflexivity.
  - do 2 eexists. split; reflexivity.
Qed.

Lemma collect_loop (futures : list (string * result assessment)) :
  Forall sound futures ->
  forall checked available registered,
  exists checked' available',
    fold_left collect futures (checked, available, registered)
    = (checked', available',
       (registered ++ map fst (filter is_registered futures))%list) /\
    map o_domain available'
    = (map o_domain available ++ map fst (filter is_available futures))%list.
Proof.
  induction 1 as [|future futures Hs _ IH]; intros checked available registered.
  - simpl. exists checked, available. rewrite !app_nil_r. split; reflexivity.
  - cbn [fold_left].
    destruct (collect_sound future checked available registered Hs)
      as (c1 & a1 & E1 & M1).
    rewrite E1.
    destruct (IH c1 a1 (if is_available future then registered
                        else (registered ++ [fst future])%list))
      as (c2 & a2 & E2 & M2).
    exists c2, a2. rewrite E2, M2, M1.
    destruct Hs as (a & Ea & _).
    unfold is_available, is_registered. simpl. rewrite Ea.
    destruct (truthy (likely_available a)); simpl;
      rewrite <- ?app_assoc; split; reflexivity.
Qed.

Lemma registered_or_available (futures : list (string * result assessment)) :
  Forall sound futures ->
  forall d,
    (count_occ string_dec (map fst (filter is_available futures)) d
     + count_occ string_dec (map fst (filter is_registered futures)) d
     = count_occ string_dec (map fst futures) d)%nat.
Proof.
  induction 1 as [|future futures Hs _ IH]; intros d; [reflexivity|].
  destruct Hs as (a & Ea & _).
  assert (Ha : is_available future = truthy (likely_available a))
    by (unfold is_available; rewrite Ea; reflexivity).
  assert (Hr : is_registered future = negb (truthy (likely_available a)))
    by (unfold is_registered; rewrite Ea; reflexivity).
  specialize (IH d). cbn [filter map]. rewrite Ha, Hr.
  destruct (truthy (likely_available a)); cbn [negb map count_occ];
    destruct (string_dec (fst future) d); lia.
Qed.

Lemma map_fst_futures (w : world) (variations : list string) :
  map fst (future_to_domain w variations) = variations.
Proof.
  unfold future_to_domain. rewrite map_map. simpl. apply map_id.
Qed.

(** The futures being functions of their domains, a domain's place is
    decided by its own check. *)
Lemma in_available (w : world) (variations : list string)
  (futures : list (string * result assessment)) (d : string) :
  Permutation futures (future_to_domain w variations) ->
  In d (map fst (filter is_available futures)) <->
  In d variations
  /\ is_available (d, comprehensive_domain_check w d) = true.
Proof.
  intros P. rewrite in_map_iff. split.
  - intros ([d' o] & <- & Hf). apply filter_In in Hf. destruct Hf as [Hf Ha].
    apply (Permutation_in _ P) in Hf. unfold future_to_domain in Hf.
    apply in_map_iff in Hf. destruct Hf as (x & [= <- <-] & Hx).
    split; assumption.
  - intros [Hd Ha]. exists (d, comprehensive_domain_check w d).
    split; [reflexivity|]. apply filter_In. split; [|exact Ha].
    apply (Permutation_in _ (Permutation_sym P)).
    unfold future_to_domain. apply in_map_iff. exists d. auto.
Qed.

Lemma in_registered (w : world) (variations : list string)
  (futures : list (string * result assessment)) (d : string) :
  Permutation futures (future_to_domain w variations) ->
  In d (map fst (filter is_registered futures)) <->
  In d variations
  /\ is_registered (d, comprehensive_domain_check w d) = true.
Proof.
  intros P. rewrite in_map_iff. split.
  - intros ([d' o] & <- & Hf). apply filter_In in Hf. destruct Hf as [Hf Ha].
    apply (Permutation_in _ P) in Hf. unfold future_to_domain in Hf.
    apply in_map_iff in Hf. destruct Hf as (x & [= <- <-] & Hx).
    split; assumption.
  - intros [Hd Ha]. exists (d, comprehensive_domain_check w d).
    split; [reflexivity|]. apply filter_In. split; [|exact Ha].
    apply (Permutation_in _ (Permutation_sym P)).
    unfold future_to_domain. apply in_map_iff. exists d. auto.
Qed.

(** The block that collects the futures, summed up: the available and the
    registered domains, each in completion order. *)
Lemma gather_lists (w : world) (variations : list string) :
  yields_each_once w ->
  exists checked available,
    gather w variations
    = (checked, available,
       map fst (filter is_registered
                       (as_completed w _ (future_to_domain w variations))))
    /\ map o_domain available
       = map fst (filter is_available
                         (as_completed w _ (future_to_domain w variations))).
Proof.
  intros Y. unfold gather.
  assert (S : Forall sound (as_completed w _ (future_to_domain w variations))).
  { eapply Permutation_Forall; [|apply futures_sound].
    apply Permutation_sym, Y. }
  destruct (collect_loop _ S [] [] []) as (c & a & E & M).
  exists c, a. rewrite E. split; [reflexivity | exact M].
Qed.

(** The report keeps the lists the block collected. *)
Lemma check_business_name_lists (w : world) (self : checker) (name : string) :
  exists r,
    check_business_name w self name = Ok r /\
    (domains_checked r, available_domains r, registered_domains r)
    = gather w (generate_domain_variations self name) /\
    best_com_option (summary r)
    = match rank (com_options r) with
      | [] => None
      | best :: _ => Some (o_domain best)
      end /\
    s_likely_available (summary r) = List.length (available_domains r).
Proof.
  unfold check_business_name.
  destruct (gather w (generate_domain_variations self name))
    as [[checked available] registered].
  eexists. split; [reflexivity|]. simpl. repeat split.
Qed.


Lemma last_first_yields_each_once :
  yields_each_once (empty_internet last_first).
Proof.
  intros T l. apply Permutation_sym, Permutation_rev.
Qed.

(** C10.  Futures being handed back once each, every variation whose
    assessment comes back is appended to exactly one of
    ['available_domains'] and ['registered_domains']: the occurrences of a
    domain in the two lists add up to its occurrences among the variations,
    and the domain is in the first list when its assessment is likely
    available and in the second otherwise.  An assessment whose verdict is
    [None] (three Unknown signals) goes to ['registered_domains']. *)
Theorem check_business_name_partitions (w : world) (self : checker)
  (name : string) :
  yields_each_once w ->
  (exists r,
      check_business_name w self name = Ok r /\
      (forall d,
          (count_occ string_dec (map o_domain (available_domains r)) d
           + count_occ string_dec (registered_domains r) d
           = count_occ string_dec (generate_domain_variations self name) d)%nat)
      /\
      (forall d,
          In d (generate_domain_variations self name) ->
          exists a,
            comprehensive_domain_check w d = Ok a /\
            if truthy (likely_available a)
            then In d (map o_domain (available_domains r))
                 /\ ~ In d (registered_domains r)
            else In d (registered_domains r)
                 /\ ~ In d (map o_domain (available_domains r)))) /\
  (forall checked available registered domain timestamp m1 m2 m3,
      let a := assess domain timestamp
                      [("dns", (None, m1)); ("whois", (None, m2));
                       ("http", (None, m3))] in
      collect (checked, available, registered) (domain, Ok a)
      = ((checked ++ [a])%list, available, (registered ++ [domain])%list)).
Proof.
  intros Y. split; [|reflexivity].
  destruct (check_business_name_lists w self name) as (r & E & L & _).
  exists r. split; [exact E|].
  set (variations := generate_domain_variations self name) in *.
  destruct (gather_lists w variations Y) as (c & a & G & M).
  rewrite G in L. injection L as _ La Lr. subst a.
  rewrite M, Lr.
  pose proof (Y _ (future_to_domain w variations)) as P.
  assert (S : Forall sound (as_completed w _ (future_to_domain w variations))).
  { eapply Permutation_Forall; [apply Permutation_sym, P|].
    apply futures_sound. }
  split.
  - intros d. rewrite (registered_or_available _ S d).
    rewrite <- (map_fst_futures w variations) at 2.
    apply Permutation_count_occ, Permutation_map, P.
  - intros d Hd.
    destruct (future_sound w d) as (a & Ea & _). simpl in Ea.
    exists a. split; [exact Ea|].
    pose proof (in_available w variations _ d P) as IA.
    pose proof (in_registered w variations _ d P) as IR.
    unfold is_available in IA. unfold is_registered in IR.
    simpl in IA, IR. rewrite Ea in IA, IR.
    destruct (truthy (likely_available a)); simpl in IA, IR; split.
    + apply IA. auto.
    + intros F. apply IR in F. destruct F. discriminate.
    + apply IR. auto.
    + intros F. apply IA in F. destruct F. discriminate.
Qed.

Lemma check_business_name_partitions_witness :
  yields_each_once (empty_internet last_first) /\
  exists r,
    check_business_name (empty_internet last_first) plain_and_hq "ACME" = Ok r
    /\ map o_domain (available_domains r) = ["acmehq.com"; "acme.com"]
    /\ registered_domains r = [].
Proof.
  split; [exact last_first_yields_each_once|].
  destruct (check_business_name_partitions
              (empty_internet last_first) plain_and_hq "ACME"
              last_first_yields_each_once) as [(r & E & _) _].
  exists r. split; [exact E|].
  vm_compute in E. injection E as <-. split; reflexivity.
Defined.

End OrchestratorFacts.

(** ** [DomainAvailabilityChecker]: ranking the options *)

Module RankingFacts.
Import DomainAvailabilityChecker.

Lemma rank_lt_asym a b : rank_lt a b = true -> rank_lt b a = false.
Proof. apply pair_lt_asym, Q_lt_asym. Qed.

Lemma rank_lt_negtrans a b c :
  rank_lt a b = false -> rank_lt b c = false -> rank_lt a c = false.
Proof. apply pair_lt_negtrans, Q_lt_negtrans. Qed.

(** What "not smaller" says on ranking keys. *)
Lemma rank_desc (x y : option_t) :
  rank_lt (rank_key x) (rank_key y) = false ->
  (is_High x = true /\ is_High y = false) \/
  (is_High x = is_High y /\ (o_score y <= o_score x)%Q).
Proof.
  unfold rank_lt, pair_lt, rank_key, bool_lt. simpl.
  destruct (is_High x), (is_High y); simpl; intros H;
    try discriminate; auto; right; split; auto; apply Q_lt_false, H.
Qed.

Lemma rank_same_class (x y : option_t) :
  o_confidence x = o_confidence y -> (o_score x == o_score y)%Q ->
  key_equiv rank_lt (rank_key x) (rank_key y) = true.
Proof.
  intros Hc Hs. apply pair_key_equiv. simpl. split.
  - unfold is_High. rewrite Hc. reflexivity.
  - unfold key_equiv. apply andb_true_iff.
    split; apply negb_true_iff, Q_lt_false; rewrite Hs; apply Qle_refl.
Qed.

(** C5 as worded, with ties following generation order, fails when the
    second variation completes first: both [.com] options score 100 with
    confidence High, "acme.com" is generated before "acmehq.com", and
    "acmehq.com" is ranked first and becomes the best option. *)
Lemma ties_follow_completion_order :
  yields_each_once (empty_internet last_first) /\
  generate_domain_variations plain_and_hq "ACME"
  = ["acme.com"; "acmehq.com"] /\
  (exists r,
      check_business_name (empty_internet last_first) plain_and_hq "ACME"
      = Ok r /\
      map o_domain (rank (com_options r)) = ["acmehq.com"; "acme.com"] /\
      map o_confidence (com_options r) = ["High"; "High"] /\
      Forall (fun x => o_score x == 100)%Q (com_options r) /\
      best_com_option (summary r) = Some "acmehq.com") /\
  ~ ties_in_generation_order (empty_internet last_first) plain_and_hq "ACME".
Proof.
  split; [exact OrchestratorFacts.last_first_yields_each_once|].
  split; [reflexivity|].
  destruct (OrchestratorFacts.check_business_name_lists
              (empty_internet last_first) plain_and_hq "ACME")
    as (r & E & _).
  pose proof E as E'. vm_compute in E'. injection E' as <-.
  split.
  - eexists. split; [exact E|].
    repeat split; try reflexivity.
    repeat constructor.
  - intros H.
    pose proof (H _ _ _ E
                  (or_intror (or_introl eq_refl)) (or_introl eq_refl)
                  eq_refl) as F.
    simpl in F.
    assert (G : @eq bool false true); [|discriminate G].
    apply F; [reflexivity | discriminate | reflexivity].
Qed.


(** C5, as the code has it.  The ranking of the [.com] options is a
    rearrangement of them in which an option with confidence High stands
    before one without, and among options alike in that, scores never
    increase; two options with equal confidence and equal score keep the
    order they have in ['available_domains']; the best option is the head
    of the ranking.  ['available_domains'] lists the likely available
    domains in the order their futures completed, which need not be the
    order of generation. *)
Theorem rank_com_options (w : world) (self : checker) (name : string) :
  yields_each_once w ->
  exists r,
    check_business_name w self name = Ok r /\
    Permutation (rank (com_options r)) (com_options r) /\
    StronglySorted
      (fun x y =>
         (is_High x = true /\ is_High y = false) \/
         (is_High x = is_High y /\ (o_score y <= o_score x)%Q))
      (rank (com_options r)) /\
    (forall x y pre mid post,
        com_options r = (pre ++ x :: mid ++ y :: post)%list ->
        o_confidence x = o_confidence y -> (o_score x == o_score y)%Q ->
        exists pre' mid' post',
          rank (com_options r) = (pre' ++ x :: mid' ++ y :: post')%list) /\
    best_com_option (summary r)
    = option_map o_domain (hd_error (rank (com_options r))) /\
    map o_domain (available_domains r)
    = map fst
          (filter is_available
                  (as_completed w _
                     (future_to_domain w
                        (generate_domain_variations self name)))).
Proof.
  intros Y.
  destruct (OrchestratorFacts.check_business_name_lists w self name)
    as (r & E & L & B & _).
  exists r. split; [exact E|].
  split; [apply sort_desc_perm|].
  split.
  { eapply StronglySorted_weaken; [exact rank_desc|].
    apply sort_desc_sorted; [exact rank_lt_asym | exact rank_lt_negtrans]. }
  split.
  { intros x y pre mid post Hl Hc Hs.
    apply (sort_desc_keeps_order rank_lt rank_key rank_lt_asym
             rank_lt_negtrans _ x y pre mid post);
      [apply rank_same_class; assumption | exact Hl]. }
  split.
  { rewrite B. destruct (rank (com_options r)); reflexivity. }
  destruct (OrchestratorFacts.gather_lists
              w (generate_domain_variations self name) Y)
    as (c & a & G & M).
  rewrite G in L. injection L as _ La _. subst a. exact M.
Qed.

Lemma rank_com_options_witness :
  yields_each_once (empty_internet last_first) /\
  exists r,
    check_business_name (empty_internet last_first) plain_and_hq "ACME" = Ok r
    /\ map o_domain (available_domains r) = ["acmehq.com"; "acme.com"]
    /\ best_com_option (summary r) = Some "acmehq.com".
Proof.
  split; [exact OrchestratorFacts.last_first_yields_each_once|].
  destruct (rank_com_options (empty_internet last_first) plain_and_hq "ACME"
              OrchestratorFacts.last_first_yields_each_once)
    as (r & E & _).
  exists r. split; [exact E|].
  vm_compute in E. injection E as <-. split; reflexivity.
Defined.

End RankingFacts.

(** ** Ranking the candidate names, in both scripts *)

Module OpportunityFacts.
Module D := DomainAvailabilityChecker.
Module S := SimpleDomainChecker.

Lemma endswith_nonempty (s suf : string) :
  nonempty suf = true -> endswith s suf = true -> nonempty s = true.
Proof.
  unfold endswith. intros Hs H. apply andb_true_iff in H. destruct H as [H _].
  apply Nat.leb_le in H. destruct suf; [discriminate|].
  destruct s; [simpl in H; lia | reflexivity].
Qed.

Lemma existsb_filter {A} (p : A -> bool) (l : list A) :
  existsb p l = match filter p l with [] => false | _ :: _ => true end.
Proof.
  induction l as [|a l IH]; simpl; [reflexivity|].
  destruct (p a); simpl; [reflexivity | exact IH].
Qed.

(** The head of a ranking is one of the ranked items. *)
Lemma sort_desc_hd {A K} (lt : K -> K -> bool) (key : A -> K) (l : list A) :
  match sort_desc lt key l with
  | [] => l = []
  | best :: _ => In best l
  end.
Proof.
  pose proof (sort_desc_perm lt key l) as P.
  destruct (sort_desc lt key l) as [|best rest].
  - apply Permutation_nil, P.
  - apply (Permutation_in _ P). left. reflexivity.
Qed.

Lemma StronglySorted_weaken_in {A} (R R' : A -> A -> Prop) (l : list A) :
  (forall x y, In x l -> In y l -> R x y -> R' x y) ->
  StronglySorted R l -> StronglySorted R' l.
Proof.
  intros W S. induction S as [|x l _ IH F].
  - constructor.
  - constructor.
    + apply IH. intros a b Ha Hb. apply W; right; assumption.
    + apply Forall_forall. intros y Hy. rewrite Forall_forall in F.
      apply W; [left; reflexivity | right; exact Hy | apply F, Hy].
Qed.

(** *** [run_comprehensive_check] *)

(** A [.com] domain is the best option exactly when some available domain
    ends in [.com]. *)
Lemma D_best_com_option (w : D.world) (self : D.checker) (name : string) :
  exists r,
    D.check_business_name w self name = Ok r /\
    truthy_str (D.best_com_option (D.summary r))
    = existsb D.is_com (D.available_domains r) /\
    D.s_likely_available (D.summary r) = List.length (D.available_domains r).
Proof.
  destruct (OrchestratorFacts.check_business_name_lists w self name)
    as (r & E & _ & B & N).
  exists r. split; [exact E|]. split; [|exact N].
  rewrite B, existsb_filter. unfold D.rank, D.com_options.
  pose proof (sort_desc_hd D.rank_lt D.rank_key
                (filter D.is_com (D.available_domains r))) as H.
  destruct (sort_desc D.rank_lt D.rank_key
              (filter D.is_com (D.available_domains r))) as [|best rest].
  - rewrite H. reflexivity.
  - destruct (filter D.is_com (D.available_domains r)) eqn:F;
      [destruct H|].
    rewrite <- F in H. apply filter_In in H. destruct H as [_ H].
    simpl. apply (endswith_nonempty _ ".com"); [reflexivity | exact H].
Qed.

Lemma D_track_loop (w : D.world) (self : D.checker) (names : list string) :
  forall results with_com best,
    Forall (D.opportunity_ok w self) best ->
    Forall (D.opportunity_ok w self)
           (snd (fold_left (D.track w self) names (results, with_com, best))).
Proof.
  induction names as [|name names IH]; intros results with_com best HF;
    [exact HF|].
  cbn [fold_left]. unfold D.track at 2.
  destruct (D_best_com_option w self name) as (r & E & B & N).
  rewrite E.
  destruct (truthy_str (D.best_com_option (D.summary r))) eqn:T;
    apply IH; [|exact HF].
  apply Forall_app. split; [exact HF|].
  constructor; [|constructor].
  exists r. simpl. rewrite <- B. auto.
Qed.

(** *** [run_check] *)

Lemma S_best_com_option (w : S.world) (self : S.checker) (name : string) :
  exists r,
    S.check_business_name w self name = Ok r /\
    is_not_None (S.best_com_option r)
    = existsb S.is_com (S.available_domains r).
Proof.
  unfold S.check_business_name.
  destruct (fold_left (S.collect w) (S.generate_domain_variations self name)
                      ([], [], [])) as [[checked available] registered].
  eexists. split; [reflexivity|]. simpl.
  rewrite existsb_filter. unfold S.rank.
  pose proof (sort_desc_hd bool_lt S.rank_key (filter S.is_com available))
    as H.
  destruct (sort_desc bool_lt S.rank_key (filter S.is_com available)).
  - rewrite H. reflexivity.
  - destruct (filter S.is_com available); [destruct H | reflexivity].
Qed.

Lemma S_track_loop (w : S.world) (self : S.checker) (names : list string) :
  forall results with_com best,
    Forall (S.opportunity_ok w self) best ->
    Forall (S.opportunity_ok w self)
           (snd (fold_left (S.track w self) names (results, with_com, best))).
Proof.
  induction names as [|name names IH]; intros results with_com best HF;
    [exact HF|].
  cbn [fold_left]. unfold S.track at 2.
  destruct (S_best_com_option w self name) as (r & E & B).
  rewrite E. apply IH.
  apply Forall_app. split; [exact HF|].
  constructor; [|constructor].
  exists r. simpl. auto.
Qed.


Lemma opportunity_lt_desc (a b : bool * nat) :
  pair_lt Bool.eqb bool_lt Nat.ltb a b = false -> pair_desc a b.
Proof.
  destruct a as [[] n], b as [[] m]; unfold pair_lt, pair_desc, bool_lt;
    simpl; intros H; try discriminate; auto;
    right; split; auto; apply Nat.ltb_ge, H.
Qed.

(** Both rankings are in descending order of the pair (a [.com] domain is
    likely available for the name, number of the name's likely available
    domains), and every entry says of its name what the name's report
    says. *)
Lemma opportunities_sorted (w : D.world) (self : D.checker)
  (sw : S.world) (sself : S.checker) :
  let ranking :=
    D.best_opportunities (D.overall_summary (D.run_comprehensive_check w self))
  in
  let simple_ranking :=
    S.best_opportunities (S.summary (S.run_check sw sself)) in
  StronglySorted
    (fun x y => pair_desc (D.opportunity_key x) (D.opportunity_key y))
    ranking /\
  ranking
  = sort_desc (pair_lt Bool.eqb bool_lt Nat.ltb) D.opportunity_key
      (snd (fold_left (D.track w self) (D.candidate_names self)
                      ([], 0%Z, []))) /\
  Forall (D.opportunity_ok w self) ranking /\
  StronglySorted
    (fun x y => pair_desc (S.opportunity_key x) (S.opportunity_key y))
    simple_ranking /\
  Forall (S.opportunity_ok sw sself) simple_ranking.
Proof.
  cbv zeta. unfold D.run_comprehensive_check, S.run_check.
  pose proof (D_track_loop w self (D.candidate_names self) [] 0%Z []
                (Forall_nil _)) as HD.
  pose proof (S_track_loop sw sself (S.candidate_names sself) [] [] []
                (Forall_nil _)) as HS.
  destruct (fold_left (D.track w self) (D.candidate_names self)
                      ([], 0%Z, [])) as [[names with_com] best].
  destruct (fold_left (S.track sw sself) (S.candidate_names sself)
                      ([], [], [])) as [[results with_coms] sbest].
  simpl in HD, HS. simpl.
  assert (FD : Forall (D.opportunity_ok w self)
                      (sort_desc Nat.ltb D.total_available best)).
  { eapply Permutation_Forall; [|exact HD].
    apply Permutation_sym, sort_desc_perm. }
  assert (FS : Forall (S.opportunity_ok sw sself)
                      (sort_desc S.opportunity_lt S.opportunity_key sbest)).
  { eapply Permutation_Forall; [|exact HS].
    apply Permutation_sym, sort_desc_perm. }
  repeat split; try assumption.
  - apply StronglySorted_weaken_in
      with (R := desc_ok Nat.ltb D.total_available).
    + intros x y Hx Hy R. rewrite Forall_forall in FD.
      destruct (FD x Hx) as (_ & _ & Tx & _).
      destruct (FD y Hy) as (_ & _ & Ty & _).
      right. unfold D.opportunity_key. simpl. rewrite Tx, Ty.
      split; [reflexivity | apply Nat.ltb_ge, R].
    + apply sort_desc_sorted; [exact nat_lt_asym | exact nat_lt_negtrans].
  - apply sort_desc_ext. intros x y Hx Hy. rewrite Forall_forall in HD.
    destruct (HD x Hx) as (_ & _ & Tx & _).
    destruct (HD y Hy) as (_ & _ & Ty & _).
    unfold pair_lt, D.opportunity_key. simpl. rewrite Tx, Ty. reflexivity.
  - apply StronglySorted_weaken
      with (R := desc_ok S.opportunity_lt S.opportunity_key).
    + intros x y. apply opportunity_lt_desc.
    + apply sort_desc_sorted.
      * apply pair_lt_asym, nat_lt_asym.
      * apply pair_lt_negtrans, nat_lt_negtrans.
Qed.

End OpportunityFacts.

(** ** [DomainAvailabilityChecker]: what an assessment can be *)

Module AssessmentFacts.
Import DomainAvailabilityChecker.

(** X1.  Over three checks a positive verdict needs every conclusive check to
    say DoesNotExist: likely available holds exactly when some check says
    DoesNotExist and none says Exists; the confidence is High exactly
    then, and never Medium. *)
Theorem assess_unanimous (domain timestamp : string)
  (dns whois http : verdict) :
  let signals := [dns; whois; http] in
  let a := assess domain timestamp
                  [("dns", dns); ("whois", whois); ("http", http)] in
  truthy (likely_available a)
  = existsb (fun v => is_False (fst v)) signals
    && negb (existsb (fun v => is_True (fst v)) signals) /\
  String.eqb (confidence a) "High" = truthy (likely_available a) /\
  confidence a <> "Medium".
Proof.
  destruct dns as [[[]|] ?], whois as [[[]|] ?], http as [[[]|] ?];
    cbv zeta; repeat split; discriminate.
Qed.

(** The score of three checks, when there is one, lies between 0 and
    100. *)
Lemma assess_score_bounds (domain timestamp : string)
  (dns whois http : verdict) (q : Q) :
  availability_score
    (assess domain timestamp
            [("dns", dns); ("whois", whois); ("http", http)]) = Some q ->
  (0 <= q)%Q /\ (q <= 100)%Q.
Proof.
  destruct dns as [[[]|] ?], whois as [[[]|] ?], http as [[[]|] ?];
    cbn; intros [= <-]; split; unfold Qle; simpl; lia.
Qed.

(** The aggregation copies the domain and the checks. *)
Lemma assess_fields (domain timestamp : string)
  (checks : list (string * verdict)) :
  a_domain (assess domain timestamp checks) = domain /\
  a_checks (assess domain timestamp checks) = checks.
Proof.
  unfold assess.
  destruct (fold_left tally checks (0, 0)%Z) as [score total].
  destruct (total >? 0)%Z; [|split; reflexivity].
  destruct (Qle_bool _ _); split; reflexivity.
Qed.

(** X2.  The per-domain check always returns, and never with an undetermined
    assessment, the HTTP check being conclusive: the verdict is likely
    available exactly when the HTTP check says DoesNotExist and neither the
    DNS nor the WHOIS check says Exists; a score between 0 and 100 is
    recorded; the confidence is High on a positive verdict and Low on a
    negative one. *)
Theorem comprehensive_domain_check_conclusive (w : world) (domain : string) :
  exists dns whois b reason a q,
    check_dns_resolution w domain = Ok dns /\
    check_whois w domain = Ok whois /\
    check_http_response w domain = Ok (Some b, reason) /\
    comprehensive_domain_check w domain = Ok a /\
    a_domain a = domain /\
    a_checks a = [("dns", dns); ("whois", whois); ("http", (Some b, reason))] /\
    likely_available a
    = Some (negb b && negb (is_True (fst dns)) && negb (is_True (fst whois)))
    /\
    availability_score a = Some q /\ (0 <= q)%Q /\ (q <= 100)%Q /\
    confidence a = (if truthy (likely_available a) then "High" else "Low").
Proof.
  destruct (OrchestratorFacts.check_dns_resolution_returns w domain)
    as [dns Ed].
  destruct (OrchestratorFacts.check_whois_returns w domain) as [whois Ew].
  destruct (CheckerFacts.http_loop_decides w domain ["https://"; "http://"])
    as (b & reason & Eh).
  fold (check_http_response w domain) in Eh.
  set (a := assess domain (now w)
                   [("dns", dns); ("whois", whois); ("http", (Some b, reason))]).
  assert (Ea : comprehensive_domain_check w domain = Ok a).
  { unfold comprehensive_domain_check. rewrite Ed, Ew, Eh. reflexivity. }
  assert (Hq : exists q, availability_score a = Some q).
  { subst a. destruct dns as [[[]|] ?], whois as [[[]|] ?], b;
      eexists; reflexivity. }
  destruct Hq as [q Hq].
  exists dns, whois, b, reason, a, q.
  destruct (assess_score_bounds _ _ _ _ _ _ Hq) as [H0 H100].
  destruct (assess_fields domain (now w)
              [("dns", dns); ("whois", whois); ("http", (Some b, reason))])
    as [Fd Fc].
  repeat (split; [assumption|]).
  split.
  { subst a. destruct dns as [[[]|] ?], whois as [[[]|] ?], b; reflexivity. }
  repeat (split; [assumption|]).
  subst a. destruct dns as [[[]|] ?], whois as [[[]|] ?], b; reflexivity.
Qed.

End AssessmentFacts.

(** ** [DomainAvailabilityChecker]: the report on one business name *)

Module ReportFacts.
Import DomainAvailabilityChecker.

(** X3.  When the https request gets a response, whatever its status, the http
    scheme plays no part: the verdict is DoesNotExist on status 404 and
    Exists on every other status. *)
Theorem https_answer_decides (w w' : world) (domain : string) (status : Z) :
  session_get w ("https://" ++ domain) = Ok status ->
  session_get w' ("https://" ++ domain) = Ok status ->
  check_http_response w domain = check_http_response w' domain /\
  exists reason,
    check_http_response w domain
    = Ok (Some (negb (status =? 404)%Z), reason).
Proof.
  intros E E'. unfold check_http_response. cbn [http_loop].
  rewrite E, E'. unfold bind.
  destruct (status =? 200)%Z eqn:E200.
  - apply Z.eqb_eq in E200. subst status.
    split; [reflexivity | eexists; reflexivity].
  - destruct (status =? 404)%Z;
      (split; [reflexivity | eexists; reflexivity]).
Qed.

Lemma https_answer_decides_witness :
  check_http_response (answering (Ok 404%Z) (Ok 200%Z)) "parked.com"
  = check_http_response
      (answering (Ok 404%Z) (Raise (ConnectionError "refused"))) "parked.com"
  /\
  exists reason,
    check_http_response (answering (Ok 404%Z) (Ok 200%Z)) "parked.com"
    = Ok (Some false, reason).
Proof.
  exact (https_answer_decides
           (answering (Ok 404%Z) (Ok 200%Z))
           (answering (Ok 404%Z) (Raise (ConnectionError "refused")))
           "parked.com" 404%Z eq_refl eq_refl).
Defined.

Lemma filter_map_comm {A B} (f : A -> B) (p : B -> bool) (l : list A) :
  filter p (map f l) = map f (filter (fun x => p (f x)) l).
Proof.
  induction l as [|x l IH]; [reflexivity|].
  simpl. destruct (p (f x)); simpl; rewrite IH; reflexivity.
Qed.

Lemma in_firstn {A} (n : nat) (l : list A) (x : A) :
  In x (firstn n l) -> In x l.
Proof.
  intros H. rewrite <- (firstn_skipn n l). apply in_or_app. left. exact H.
Qed.

Lemma hd_error_map {A B} (f : A -> B) (l : list A) :
  hd_error (map f l) = option_map f (hd_error l).
Proof. destruct l; reflexivity. Qed.

(** A list whose items all have keys of one class is left as it is. *)
Lemma sort_desc_flat {A K} (lt : K -> K -> bool) (key : A -> K) (l : list A) :
  (forall x y, In x l -> In y l -> lt (key x) (key y) = false) ->
  sort_desc lt key l = l.
Proof.
  induction l as [|x l IH]; intros H; [reflexivity|].
  simpl. rewrite IH by (intros a b Ha Hb; apply H; right; assumption).
  destruct l as [|y l]; [reflexivity|].
  simpl. rewrite H; [reflexivity | left; reflexivity | right; left; reflexivity].
Qed.

Lemma rank_top (l : list option_t) : Forall top_option l -> rank l = l.
Proof.
  intros F. apply sort_desc_flat. intros x y Hx Hy.
  rewrite Forall_forall in F.
  destruct (F x Hx) as [Cx Sx]. destruct (F y Hy) as [Cy Sy].
  unfold rank_lt, pair_lt, rank_key, is_High. simpl.
  rewrite Cx, Cy. simpl. apply Q_lt_false. rewrite Sx, Sy. apply Qle_refl.
Qed.

(** Every assessment that comes back is kept, in the order of the loop. *)
Lemma collect_checked (futures : list (string * result assessment)) :
  forall checked available registered,
    fst (fst (fold_left collect futures (checked, available, registered)))
    = (checked ++ came_back futures)%list.
Proof.
  induction futures as [|[domain outcome] futures IH];
    intros checked available registered.
  - simpl. rewrite app_nil_r. reflexivity.
  - cbn [fold_left]. unfold came_back. cbn [flat_map snd].
    fold (came_back futures).
    destruct outcome as [a|e]; unfold collect.
    + destruct (truthy (likely_available a));
        [destruct (availability_score a)|];
        rewrite IH, <- app_assoc; reflexivity.
    + rewrite IH. reflexivity.
Qed.

(** There are never more available domains than checked ones. *)
Lemma collect_available_le (futures : list (string * result assessment)) :
  forall checked available registered,
    (List.length available <= List.length checked)%nat ->
    (List.length
       (snd (fst (fold_left collect futures (checked, available, registered))))
     <= List.length
          (fst (fst (fold_left collect futures
                               (checked, available, registered)))))%nat.
Proof.
  induction futures as [|[domain outcome] futures IH];
    intros checked available registered H; [exact H|].
  cbn [fold_left]. destruct outcome as [a|e]; unfold collect.
  - destruct (truthy (likely_available a));
      [destruct (availability_score a)|];
      apply IH; rewrite ?length_app; simpl; lia.
  - apply IH, H.
Qed.

Lemma future_unanimous (w : world) (domain : string) :
  unanimous (domain, comprehensive_domain_check w domain).
Proof.
  destruct (OrchestratorFacts.comprehensive_domain_check_returns w domain)
    as (dns & whois & b & reason & E).
  rewrite E. eexists. split; [reflexivity|].
  split; [apply AssessmentFacts.assess_fields|].
  destruct dns as [[[]|] ?], whois as [[[]|] ?], b; simpl;
    intros T; try discriminate T;
    (split; [reflexivity | eexists; split; reflexivity]).
Qed.

Lemma futures_unanimous (w : world) (variations : list string) :
  Forall unanimous (future_to_domain w variations).
Proof.
  unfold future_to_domain. apply Forall_forall. intros f Hf.
  apply in_map_iff in Hf. destruct Hf as (d & <- & _).
  apply future_unanimous.
Qed.

(** Options collected from unanimous futures are top options. *)
Lemma collect_top (futures : list (string * result assessment)) :
  Forall unanimous futures ->
  forall checked available registered,
    Forall top_option available ->
    Forall top_option
      (snd (fst (fold_left collect futures (checked, available, registered)))).
Proof.
  induction 1 as [|[domain outcome] futures Hu _ IH];
    intros checked available registered F; [exact F|].
  cbn [fold_left]. destruct Hu as (a & Ea & _ & Ha). simpl in Ea.
  subst outcome. unfold collect.
  destruct (truthy (likely_available a)) eqn:T; [|apply IH, F].
  destruct (Ha eq_refl) as (C & q & -> & Hq).
  apply IH. apply Forall_app. split; [exact F|].
  constructor; [|constructor]. split; assumption.
Qed.

(** With unanimous futures all assessments come back, domain by domain. *)
Lemma came_back_domains (futures : list (string * result assessment)) :
  Forall unanimous futures ->
  map a_domain (came_back futures) = map fst futures.
Proof.
  induction 1 as [|future futures (a & Ea & Da & _) _ IH]; [reflexivity|].
  unfold came_back. cbn [flat_map]. fold (came_back futures).
  rewrite Ea. simpl. rewrite IH, Da. reflexivity.
Qed.

(** The fields of the report, read off the method. *)
Lemma check_business_name_fields (w : world) (self : checker) (name : string) :
  exists r,
    check_business_name w self name = Ok r /\
    (domains_checked r, available_domains r, registered_domains r)
    = gather w (generate_domain_variations self name) /\
    business_name r = name /\
    total_variations r
    = List.length (generate_domain_variations self name) /\
    total_domains_checked (summary r) = List.length (domains_checked r) /\
    s_likely_available (summary r) = List.length (available_domains r) /\
    likely_registered (summary r)
    = (Z.of_nat (List.length (domains_checked r))
       - Z.of_nat (List.length (available_domains r)))%Z /\
    availability_rate (summary r)
    = (if (0 <? List.length (domains_checked r))%nat
       then ((inject_Z (Z.of_nat (List.length (available_domains r)))
              / inject_Z (Z.of_nat (List.length (domains_checked r)))) * 100)%Q
       else 0%Q) /\
    best_com_option (summary r)
    = option_map o_domain (hd_error (rank (com_options r))) /\
    best_alternatives (summary r)
    = map o_domain
          (firstn 3 (rank (filter (fun d => negb (is_com d))
                                  (available_domains r)))).
Proof.
  unfold check_business_name.
  destruct (gather w (generate_domain_variations self name))
    as [[checked available] registered].
  eexists. split; [reflexivity|]. simpl.
  repeat split.
  unfold com_options. simpl.
  destruct (rank (filter is_com available)); reflexivity.
Qed.

Lemma variations_length (self : checker) (name : string) :
  List.length (generate_domain_variations self name)
  = (List.length (suffixes self) * List.length (extensions self))%nat.
Proof.
  unfold generate_domain_variations.
  rewrite GeneratorFacts.suffixes_loop. simpl.
  apply (GeneratorFacts.variations_spec_length name).
Qed.

Lemma available_or_registered_length
  (futures : list (string * result assessment)) :
  Forall sound futures ->
  (List.length (filter is_available futures)
   + List.length (filter is_registered futures)
   = List.length futures)%nat.
Proof.
  induction 1 as [|future futures (a & Ea & _) _ IH]; [reflexivity|].
  cbn [filter]. unfold is_available at 1, is_registered at 1. rewrite Ea.
  destruct (truthy (likely_available a)); simpl; lia.
Qed.

(** X4.  The counts of the report agree with its lists: every variation is
    checked, the assessments are listed in completion order, and the
    available and the registered domains add up to the
    [len(suffixes) * len(extensions)] variations. *)
Theorem check_business_name_counts (w : world) (self : checker)
  (name : string) :
  yields_each_once w ->
  exists r,
    check_business_name w self name = Ok r /\
    business_name r = name /\
    total_variations r
    = (List.length (suffixes self) * List.length (extensions self))%nat /\
    map a_domain (domains_checked r)
    = map fst (as_completed w _
                 (future_to_domain w (generate_domain_variations self name)))
    /\
    total_domains_checked (summary r) = total_variations r /\
    (s_likely_available (summary r) + List.length (registered_domains r)
     = total_variations r)%nat /\
    likely_registered (summary r)
    = Z.of_nat (List.length (registered_domains r)).
Proof.
  intros Y.
  destruct (check_business_name_fields w self name)
    as (r & E & G & Hn & Hv & Hc & Ha & Hr & _).
  exists r. split; [exact E|]. split; [exact Hn|].
  set (variations := generate_domain_variations self name) in *.
  set (futures := as_completed w _ (future_to_domain w variations)) in *.
  pose proof (Y _ (future_to_domain w variations)) as P. fold futures in P.
  assert (S : Forall sound futures).
  { eapply Permutation_Forall; [apply Permutation_sym, P|].
    apply OrchestratorFacts.futures_sound. }
  assert (U : Forall unanimous futures).
  { eapply Permutation_Forall; [apply Permutation_sym, P|].
    apply futures_unanimous. }
  assert (Lf : List.length futures = List.length variations).
  { rewrite (Permutation_length P). unfold future_to_domain.
    apply length_map. }
  pose proof (collect_checked futures [] [] []) as C.
  destruct (OrchestratorFacts.collect_loop futures S [] [] [])
    as (c & a & L & M).
  unfold gather in G. fold futures in G. rewrite L in G, C.
  injection G as Gc Ga Gr. simpl in C, M, Gr. subst c a.
  assert (Dc : map a_domain (domains_checked r) = map fst futures).
  { rewrite C. apply came_back_domains, U. }
  assert (Lc : List.length (domains_checked r) = List.length variations).
  { rewrite <- (length_map a_domain), Dc, length_map. exact Lf. }
  assert (La : List.length (available_domains r)
               = List.length (filter is_available futures)).
  { rewrite <- (length_map o_domain), M, length_map. reflexivity. }
  assert (Lr : List.length (registered_domains r)
               = List.length (filter is_registered futures)).
  { rewrite Gr, length_map. reflexivity. }
  pose proof (available_or_registered_length futures S) as T.
  pose proof (variations_length self name) as V. fold variations in V.
  repeat split.
  - rewrite Hv. exact V.
  - exact Dc.
  - rewrite Hc, Hv. exact Lc.
  - rewrite Ha, Hv. lia.
  - rewrite Hr. lia.
Qed.

Lemma check_business_name_counts_witness :
  yields_each_once (empty_internet last_first) /\
  exists r,
    check_business_name (empty_internet last_first) plain_and_hq "ACME" = Ok r
    /\ total_variations r = 2%nat
    /\ total_domains_checked (summary r) = 2%nat
    /\ likely_registered (summary r) = 0%Z.
Proof.
  split; [exact OrchestratorFacts.last_first_yields_each_once|].
  destruct (check_business_name_counts
              (empty_internet last_first) plain_and_hq "ACME"
              OrchestratorFacts.last_first_yields_each_once)
    as (r & E & _).
  exists r. split; [exact E|].
  vm_compute in E. injection E as <-. repeat split.
Defined.

Lemma percentage_bounds (a c : nat) :
  (a <= c)%nat -> (0 < c)%nat ->
  (0 <= (inject_Z (Z.of_nat a) / inject_Z (Z.of_nat c)) * 100)%Q /\
  ((inject_Z (Z.of_nat a) / inject_Z (Z.of_nat c)) * 100 <= 100)%Q.
Proof.
  intros Hac Hc.
  assert (Pc : (0 < inject_Z (Z.of_nat c))%Q).
  { unfold Qlt. simpl. lia. }
  assert (L : (0 <= inject_Z (Z.of_nat a) / inject_Z (Z.of_nat c))%Q).
  { apply Qle_shift_div_l; [exact Pc|]. rewrite Qmult_0_l.
    change 0%Q with (inject_Z 0). rewrite <- Zle_Qle. lia. }
  assert (U : (inject_Z (Z.of_nat a) / inject_Z (Z.of_nat c) <= 1)%Q).
  { apply Qle_shift_div_r; [exact Pc|]. rewrite Qmult_1_l.
    rewrite <- Zle_Qle. lia. }
  split.
  - apply Qmult_le_0_compat; [exact L|]. unfold Qle. simpl. lia.
  - apply Qle_trans with (1 * 100)%Q.
    + apply Qmult_le_compat_r; [exact U|]. unfold Qle. simpl. lia.
    + unfold Qle. simpl. lia.
Qed.

(** X5.  Whatever the futures do and in whatever order they are handed back,
    the availability rate of the report lies between 0 and 100 and the
    count of registered domains is not negative. *)
Theorem check_business_name_rate (w : world) (self : checker)
  (name : string) :
  exists r,
    check_business_name w self name = Ok r /\
    (0 <= availability_rate (summary r))%Q /\
    (availability_rate (summary r) <= 100)%Q /\
    (0 <= likely_registered (summary r))%Z.
Proof.
  destruct (check_business_name_fields w self name)
    as (r & E & G & _ & _ & _ & _ & Hr & Hq & _).
  exists r. split; [exact E|].
  pose proof (collect_available_le
                (as_completed w _
                   (future_to_domain w (generate_domain_variations self name)))
                [] [] [] (le_n 0)) as L.
  unfold gather in G. rewrite <- G in L. simpl in L.
  rewrite Hq, Hr.
  destruct (0 <? List.length (domains_checked r))%nat eqn:Z.
  - apply Nat.ltb_lt in Z.
    destruct (percentage_bounds _ _ L Z) as [H0 H100].
    repeat split; [exact H0 | exact H100 | lia].
  - repeat split; [unfold Qle; simpl; lia.. | lia].
Qed.

(** X6.  All likely available domains score 100 with confidence High, so the
    ranking leaves the options in the order of ['available_domains']: the
    best [.com] option is the first likely available [.com] domain to
    complete, and the alternatives are the first three others. *)
Theorem check_business_name_first_completed (w : world) (self : checker)
  (name : string) :
  yields_each_once w ->
  exists r,
    check_business_name w self name = Ok r /\
    Forall top_option (available_domains r) /\
    rank (com_options r) = com_options r /\
    best_com_option (summary r)
    = hd_error
        (filter (fun d => endswith d ".com")
                (map o_domain (available_domains r))) /\
    best_alternatives (summary r)
    = firstn 3
        (filter (fun d => negb (endswith d ".com"))
                (map o_domain (available_domains r))).
Proof.
  intros Y.
  destruct (check_business_name_fields w self name)
    as (r & E & G & _ & _ & _ & _ & _ & _ & Hb & Ha).
  exists r. split; [exact E|].
  assert (U : Forall unanimous
                (as_completed w _
                   (future_to_domain w
                      (generate_domain_variations self name)))).
  { eapply Permutation_Forall; [apply Permutation_sym, Y|].
    apply futures_unanimous. }
  pose proof (collect_top _ U [] [] [] (Forall_nil _)) as T.
  unfold gather in G. rewrite <- G in T. simpl in T.
  assert (Tc : Forall top_option (com_options r)).
  { apply Forall_forall. intros o Ho. apply filter_In in Ho.
    rewrite Forall_forall in T. apply T, Ho. }
  assert (Tn : Forall top_option
                 (filter (fun d => negb (is_com d)) (available_domains r))).
  { apply Forall_forall. intros o Ho. apply filter_In in Ho.
    rewrite Forall_forall in T. apply T, Ho. }
  split; [exact T|]. split; [apply rank_top, Tc|].
  rewrite Hb, Ha, (rank_top _ Tc), (rank_top _ Tn).
  unfold com_options. rewrite !filter_map_comm, firstn_map.
  split; [|reflexivity].
  symmetry. apply hd_error_map.
Qed.

Lemma check_business_name_first_completed_witness :
  yields_each_once (empty_internet last_first) /\
  exists r,
    check_business_name (empty_internet last_first) plain_and_hq "ACME" = Ok r
    /\ best_com_option (summary r) = Some "acmehq.com".
Proof.
  split; [exact OrchestratorFacts.last_first_yields_each_once|].
  destruct (check_business_name_first_completed
              (empty_internet last_first) plain_and_hq "ACME"
              OrchestratorFacts.last_first_yields_each_once)
    as (r & E & _).
  exists r. split; [exact E|].
  vm_compute in E. injection E as <-. reflexivity.
Defined.

(** X7.  The report recommends only what it found likely available: the best
    [.com] option ends in [.com], is one of the generated variations and
    has a likely available assessment, and there is none only when no
    generated [.com] variation is likely available; the alternatives are at
    most three, none ends in [.com], and each is a generated variation with
    a likely available assessment. *)
Theorem check_business_name_recommends (w : world) (self : checker)
  (name : string) :
  yields_each_once w ->
  exists r,
    check_business_name w self name = Ok r /\
    match best_com_option (summary r) with
    | Some d =>
        endswith d ".com" = true /\
        In d (generate_domain_variations self name) /\
        is_available (d, comprehensive_domain_check w d) = true
    | None =>
        Forall (fun d =>
                  endswith d ".com"
                  && is_available (d, comprehensive_domain_check w d) = false)
               (generate_domain_variations self name)
    end /\
    (List.length (best_alternatives (summary r)) <= 3)%nat /\
    Forall (fun d =>
              endswith d ".com" = false /\
              In d (generate_domain_variations self name) /\
              is_available (d, comprehensive_domain_check w d) = true)
           (best_alternatives (summary r)).
Proof.
  intros Y.
  destruct (check_business_name_fields w self name)
    as (r & E & G & _ & _ & _ & _ & _ & _ & Hb & Ha).
  exists r. split; [exact E|].
  set (variations := generate_domain_variations self name) in *.
  destruct (OrchestratorFacts.gather_lists w variations Y)
    as (c & a & L & M).
  rewrite L in G. injection G as _ Ga _. subst a.
  pose proof (Y _ (future_to_domain w variations)) as P.
  assert (Av : forall o, In o (available_domains r) ->
                         In (o_domain o) variations /\
                         is_available
                           (o_domain o,
                            comprehensive_domain_check w (o_domain o)) = true).
  { intros o Ho.
    apply (OrchestratorFacts.in_available w variations _ _ P).
    rewrite <- M. apply in_map, Ho. }
  split; [|split].
  - rewrite Hb.
    pose proof (OpportunityFacts.sort_desc_hd rank_lt rank_key (com_options r))
      as H.
    fold (rank (com_options r)) in H.
    destruct (rank (com_options r)) as [|best rest]; simpl.
    + apply Forall_forall. intros d Hd.
      destruct (endswith d ".com") eqn:C; [|reflexivity].
      destruct (is_available (d, comprehensive_domain_check w d)) eqn:A;
        [|reflexivity].
      exfalso.
      assert (I : In d (map o_domain (available_domains r))).
      { rewrite M.
        apply (OrchestratorFacts.in_available w variations _ _ P). auto. }
      apply in_map_iff in I. destruct I as (o & <- & Ho).
      assert (F : In o (com_options r))
        by (apply filter_In; split; [exact Ho | exact C]).
      rewrite H in F. exact F.
    + apply filter_In in H. destruct H as [Ho C].
      destruct (Av best Ho) as [Hv Hav]. auto.
  - rewrite Ha, length_map. apply firstn_le_length.
  - rewrite Ha. apply Forall_forall. intros d Hd.
    apply in_map_iff in Hd. destruct Hd as (o & <- & Ho).
    apply in_firstn in Ho.
    apply (Permutation_in _ (sort_desc_perm rank_lt rank_key _)) in Ho.
    apply filter_In in Ho. destruct Ho as [Ho C].
    destruct (Av o Ho) as [Hv Hav].
    apply negb_true_iff in C. auto.
Qed.

Lemma check_business_name_recommends_witness :
  yields_each_once (empty_internet last_first) /\
  exists r,
    check_business_name (empty_internet last_first) plain_and_hq "ACME" = Ok r
    /\ best_com_option (summary r) = Some "acmehq.com"
    /\ best_alternatives (summary r) = [].
Proof.
  split; [exact OrchestratorFacts.last_first_yields_each_once|].
  destruct (check_business_name_recommends
              (empty_internet last_first) plain_and_hq "ACME"
              OrchestratorFacts.last_first_yields_each_once)
    as (r & E & _).
  exists r. split; [exact E|].
  vm_compute in E. injection E as <-. split; reflexivity.
Defined.

End ReportFacts.

(** ** [DomainAvailabilityChecker]: the whole run *)

Module RunFacts.
Import DomainAvailabilityChecker.

Lemma track_loop_books (w : world) (self : checker) (names : list string) :
  forall reports with_com best,
  exists reports' best',
    fold_left (track w self) names (reports, with_com, best)
    = ((reports ++ reports')%list,
       (with_com + Z.of_nat (List.length best'))%Z,
       (best ++ best')%list) /\
    Forall2 (fun name r => check_business_name w self name = Ok r)
            names reports' /\
    map business_name reports' = names /\
    map opp_business_name best' = filter (has_com_option w self) names.
Proof.
  induction names as [|name names IH]; intros reports with_com best.
  - exists [], []. simpl. rewrite !app_nil_r, Z.add_0_r.
    repeat split. constructor.
  - cbn [fold_left]. unfold track at 2.
    destruct (ReportFacts.check_business_name_fields w self name)
      as (r & E & _ & Hn & _).
    assert (Hh : has_com_option w self name
                 = truthy_str (best_com_option (summary r)))
      by (unfold has_com_option; rewrite E; reflexivity).
    rewrite E. cbn [filter]. rewrite Hh.
    destruct (truthy_str (best_com_option (summary r))).
    + destruct (IH (reports ++ [r])%list (with_com + 1)%Z
                   (best ++ [{| opp_business_name := name;
                                best_com_domain := best_com_option (summary r);
                                total_available :=
                                  s_likely_available (summary r) |}])%list)
        as (rs & bs & F & H2 & Hm & Hb).
      eexists (r :: rs), (_ :: bs). rewrite F.
      split; [|split; [|split]].
      * rewrite <- !app_assoc. simpl. f_equal. f_equal. lia.
      * constructor; assumption.
      * simpl. rewrite Hn, Hm. reflexivity.
      * simpl. rewrite Hb. reflexivity.
    + destruct (IH (reports ++ [r])%list with_com best)
        as (rs & bs & F & H2 & Hm & Hb).
      exists (r :: rs), bs. rewrite F.
      split; [|split; [|split]].
      * rewrite <- !app_assoc. reflexivity.
      * constructor; assumption.
      * simpl. rewrite Hn, Hm. reflexivity.
      * exact Hb.
Qed.

(** X8.  The run keeps one report per candidate name, in the order of the
    candidates; the ranking holds exactly the names whose report has a best
    [.com] option, and ['names_with_com_available'] is their number. *)
Theorem run_comprehensive_check_books (w : world) (self : checker) :
  let res := run_comprehensive_check w self in
  total_names_checked (overall_summary res)
  = List.length (candidate_names self) /\
  map business_name (business_names res) = candidate_names self /\
  Forall2 (fun name r => check_business_name w self name = Ok r)
          (candidate_names self) (business_names res) /\
  Permutation
    (map opp_business_name (best_opportunities (overall_summary res)))
    (filter (has_com_option w self) (candidate_names self)) /\
  names_with_com_available (overall_summary res)
  = Z.of_nat (List.length (best_opportunities (overall_summary res))).
Proof.
  cbv zeta. unfold run_comprehensive_check.
  destruct (track_loop_books w self (candidate_names self) [] 0%Z [])
    as (rs & bs & F & H2 & Hm & Hb).
  rewrite F. simpl.
  pose proof (sort_desc_perm Nat.ltb total_available bs) as P.
  repeat split; try assumption.
  - rewrite <- Hb. apply Permutation_map, P.
  - rewrite (Permutation_length P). reflexivity.
Qed.

End RunFacts.

(** ** [DomainAvailabilityChecker]: the shape of the variations *)

Module VariationFacts.
Import DomainAvailabilityChecker.

Lemma lower_ascii_idem (c : ascii) : lower_ascii (lower_ascii c) = lower_ascii c.
Proof. destruct c as [[] [] [] [] [] [] [] []]; reflexivity. Qed.

Lemma lower_idem (s : string) : lower (lower s) = lower s.
Proof.
  induction s as [|c s IH]; [reflexivity|].
  simpl. rewrite lower_ascii_idem, IH. reflexivity.
Qed.

Lemma append_assoc (a b c : string) : (a ++ b) ++ c = a ++ (b ++ c).
Proof. induction a as [|x a IH]; simpl; [|rewrite IH]; reflexivity. Qed.

Lemma length_append (a b : string) :
  String.length (a ++ b) = (String.length a + String.length b)%nat.
Proof. induction a as [|x a IH]; simpl; [|rewrite IH]; reflexivity. Qed.

Lemma prefix_append (a b : string) : prefix a (a ++ b) = true.
Proof.
  induction a as [|x a IH]; simpl; [destruct b; reflexivity|].
  destruct (ascii_dec x x) as [_|N]; [exact IH | destruct (N eq_refl)].
Qed.

Lemma substring_all (b : string) : substring 0 (String.length b) b = b.
Proof. induction b as [|x b IH]; simpl; [|rewrite IH]; reflexivity. Qed.

Lemma substring_append (a b : string) :
  substring (String.length a) (String.length b) (a ++ b) = b.
Proof.
  induction a as [|x a IH]; simpl; [apply substring_all | exact IH].
Qed.

Lemma endswith_append (a b : string) : endswith (a ++ b) b = true.
Proof.
  unfold endswith. rewrite length_append.
  replace (String.length a + String.length b - String.length b)%nat
    with (String.length a) by lia.
  rewrite substring_append, String.eqb_refl, andb_true_r.
  apply Nat.leb_le. lia.
Qed.

(** X9.  The generator does not tell a name from its lowercase form, and every
    variation starts with the lowercase name and ends with one of the
    extensions. *)
Theorem generate_domain_variations_shape (self : checker) (name : string) :
  generate_domain_variations self (lower name)
  = generate_domain_variations self name /\
  Forall (fun d =>
            prefix (lower name) d = true /\
            existsb (endswith d) (extensions self) = true)
         (generate_domain_variations self name).
Proof.
  split.
  - unfold generate_domain_variations. rewrite lower_idem. reflexivity.
  - unfold generate_domain_variations. rewrite GeneratorFacts.suffixes_loop.
    simpl. apply Forall_forall. intros d Hd.
    apply in_flat_map in Hd. destruct Hd as (suffix & _ & Hd).
    apply in_map_iff in Hd. destruct Hd as (ext & <- & He).
    split.
    + rewrite append_assoc. apply prefix_append.
    + apply existsb_exists. exists ext. split; [exact He|].
      apply endswith_append.
Qed.

End VariationFacts.

(** ** [SimpleDomainChecker] *)

Module SimpleFacts.
Import SimpleDomainChecker.

(** X10.  The socket-based DNS check returns whatever the lookup does: an
    address gives Exists; a [gaierror] whose text says the name is not
    known gives DoesNotExist; any other [gaierror] and any other exception
    give Unknown with the error text. *)
Theorem check_dns_exists_mapping (w : world) (domain : string) :
  returns (check_dns_exists w domain) /\
  match gethostbyname w domain with
  | Ok _ =>
      check_dns_exists w domain = Ok (Some true, "Domain resolves to IP")
  | Raise (Gaierror m) =>
      if str_in "Name or service not known" m
         || str_in "nodename nor servname provided" m
      then check_dns_exists w domain
           = Ok (Some false, "Domain does not resolve (likely available)")
      else check_dns_exists w domain = Ok (None, "DNS error: " ++ m)
  | Raise e =>
      check_dns_exists w domain = Ok (None, "DNS check failed: " ++ str_exn e)
  end.
Proof.
  unfold check_dns_exists, returns.
  destruct (gethostbyname w domain) as [ip|e]; simpl.
  - split; [eexists|]; reflexivity.
  - destruct e; simpl; try (split; [eexists|]; reflexivity).
    destruct (_ || _); split; solve [eexists; reflexivity | reflexivity].
Qed.

Lemma check_dns_exists_returns (w : world) (domain : string) :
  returns (check_dns_exists w domain).
Proof.
  unfold check_dns_exists, returns.
  destruct (gethostbyname w domain) as [ip|e]; simpl; [eexists; reflexivity|].
  destruct e; simpl; try (eexists; reflexivity).
  destruct (_ || _); eexists; reflexivity.
Qed.

Lemma simple_http_loop_decides (w : world) (domain : string)
  (protocols : list string) :
  exists (b : bool) (reason : string),
    http_loop w domain protocols = Ok (Some b, reason).
Proof.
  induction protocols as [|protocol rest IH]; simpl.
  - do 2 eexists; reflexivity.
  - destruct (urlopen w (protocol ++ domain)) as [status|e]; simpl.
    + destruct (status =? 200)%Z; do 2 eexists; reflexivity.
    + destruct e; try exact IH.
      simpl. destruct (code =? 404)%Z; do 2 eexists; reflexivity.
Qed.

(** X11.  The urllib-based HTTP check never raises and never returns Unknown.
    On the first scheme that answers, a response gives Exists, an
    [HTTPError] gives DoesNotExist when its code is 404 and Exists
    otherwise; when neither scheme answers the verdict is DoesNotExist. *)
Theorem check_http_exists_verdict (w : world) (domain : string) :
  exists reason,
    check_http_exists w domain
    = Ok (Some
            match urlopen w ("https://" ++ domain) with
            | Ok _ => true
            | Raise (HTTPError code _) => negb (code =? 404)%Z
            | Raise _ =>
                match urlopen w ("http://" ++ domain) with
                | Ok _ => true
                | Raise (HTTPError code _) => negb (code =? 404)%Z
                | Raise _ => false
                end
            end, reason).
Proof.
  unfold check_http_exists. cbn [http_loop].
  assert (H : forall protocol rest b,
             (exists reason,
                 http_loop w domain rest = Ok (Some b, reason)) ->
             exists reason,
               try_except
                 (status_code <- urlopen w (protocol ++ domain) ;;
                  if (status_code =? 200)%Z then
                    Ok (Some true, "Active website (" ++ protocol
                                   ++ ") - Status: " ++ str_int status_code)
                  else
                    Ok (Some true, "Website exists (" ++ protocol
                                   ++ ") - Status: " ++ str_int status_code))
                 (fun e =>
                    match e with
                    | HTTPError code _ =>
                        if (code =? 404)%Z then
                          Ok (Some false, "No website content (" ++ protocol
                                          ++ ") - Status: 404")
                        else
                          Ok (Some true, "Website exists but error ("
                                         ++ protocol ++ ") - Status: "
                                         ++ str_int code)
                    | URLError _ => http_loop w domain rest
                    | _ => http_loop w domain rest
                    end)
               = Ok (Some match urlopen w (protocol ++ domain) with
                          | Ok _ => true
                          | Raise (HTTPError code _) => negb (code =? 404)%Z
                          | Raise _ => b
                          end, reason)).
  { intros protocol rest b [reason Hr].
    destruct (urlopen w (protocol ++ domain)) as [status|e]; unfold bind;
      simpl.
    - destruct (status =? 200)%Z; eexists; reflexivity.
    - destruct e; try (exists reason; exact Hr).
      destruct (code =? 404)%Z; eexists; reflexivity. }
  apply (H "https://" ["http://"]).
  apply (H "http://" []).
  eexists. reflexivity.
Qed.

(** X12.  The quick assessment follows the DNS verdict: not found gives likely
    available with confidence High; Unknown gives no verdict with
    confidence Unknown; in both cases the HTTP result is recorded as
    absent.  A name that resolves is never likely available, with
    confidence High when a site answers and Medium when none does. *)
Theorem quick_availability_check_table (w : world) (domain : string) :
  exists dns q,
    check_dns_exists w domain = Ok dns /\
    quick_availability_check w domain = Ok q /\
    q_domain q = domain /\
    dns_exists q = fst dns /\
    match fst dns with
    | Some true =>
        exists b reason,
          check_http_exists w domain = Ok (Some b, reason) /\
          http_exists q = Some b /\
          likely_available q = Some false /\
          confidence q = (if b then "High" else "Medium")
    | Some false =>
        http_exists q = Some false /\
        likely_available q = Some true /\ confidence q = "High"
    | None =>
        http_exists q = Some false /\
        likely_available q = None /\ confidence q = "Unknown"
    end.
Proof.
  destruct (check_dns_exists_returns w domain) as [[[[]|] m] Ed];
    unfold quick_availability_check; rewrite Ed; simpl.
  - destruct (simple_http_loop_decides w domain ["https://"; "http://"])
      as (b & reason & Eh).
    fold (check_http_exists w domain) in Eh. rewrite Eh.
    exists (Some true, m).
    destruct b; simpl; eexists;
      (split; [reflexivity|]); (split; [reflexivity|]);
      (split; [reflexivity|]); (split; [reflexivity|]);
      [exists true, reason | exists false, reason]; repeat split.
  - exists (Some false, m). eexists. repeat split.
  - exists (None, m). eexists. repeat split.
Qed.

(** X13.  No HTTP request is made for a name whose lookup raises: the quick
    assessment is the same whatever [urlopen] would do. *)
Theorem quick_availability_check_skips_http (w : world)
  (u : string -> result Z) (domain : string) (e : exn) :
  gethostbyname w domain = Raise e ->
  quick_availability_check (with_urlopen w u) domain
  = quick_availability_check w domain.
Proof.
  intros E. unfold quick_availability_check, check_dns_exists. simpl.
  rewrite E. simpl.
  destruct e; simpl; try reflexivity.
  destruct (_ || _); reflexivity.
Qed.

Lemma quick_availability_check_skips_http_witness :
  quick_availability_check
    (with_urlopen (coms_free (Ok 200%Z)) (fun _ => Raise (URLError "refused")))
    "acme.com"
  = quick_availability_check (coms_free (Ok 200%Z)) "acme.com".
Proof.
  exact (quick_availability_check_skips_http
           (coms_free (Ok 200%Z)) (fun _ => Raise (URLError "refused"))
           "acme.com" (Gaierror "[Errno -2] Name or service not known")
           eq_refl).
Defined.

(** What the loop over the variations needs of one quick assessment. *)
Lemma quick_availability_check_free (w : world) (domain : string) :
  exists q,
    quick_availability_check w domain = Ok q /\
    q_domain q = domain /\
    truthy (likely_available q) = dns_says_free w domain /\
    (truthy (likely_available q) = true -> confidence q = "High").
Proof.
  unfold dns_says_free.
  destruct (check_dns_exists_returns w domain) as [[[[]|] m] Ed];
    unfold quick_availability_check; rewrite Ed; simpl.
  - destruct (simple_http_loop_decides w domain ["https://"; "http://"])
      as (b & reason & Eh).
    fold (check_http_exists w domain) in Eh. rewrite Eh.
    destruct b; simpl; eexists; repeat split; discriminate.
  - eexists. repeat split.
  - eexists. repeat split. discriminate.
Qed.

Lemma simple_collect_loop (w : world) (variations : list string) :
  forall checked available registered,
    Forall (fun o => o_confidence o = "High") available ->
    exists checked' available',
      fold_left (collect w) variations (checked, available, registered)
      = (checked', available',
         (registered
          ++ filter (fun d => negb (dns_says_free w d)) variations)%list) /\
      map q_domain checked' = (map q_domain checked ++ variations)%list /\
      map o_domain available'
      = (map o_domain available
         ++ filter (dns_says_free w) variations)%list /\
      Forall (fun o => o_confidence o = "High") available'.
Proof.
  induction variations as [|d variations IH];
    intros checked available registered F.
  - exists checked, available. simpl. rewrite !app_nil_r. auto.
  - cbn [fold_left filter]. unfold collect at 2.
    destruct (quick_availability_check_free w d) as (q & E & Hd & Hf & Hc).
    rewrite E, <- Hf.
    destruct (truthy (likely_available q)) eqn:T.
    + destruct (IH (checked ++ [q])%list
                   (available ++ [{| o_domain := d;
                                     o_confidence := confidence q;
                                     o_reason := reason q |}])%list
                   registered) as (c' & a' & L & Mc & Ma & Fa).
      { apply Forall_app. split; [exact F|].
        constructor; [apply Hc; reflexivity | constructor]. }
      exists c', a'. rewrite L, Mc, Ma, !map_app, <- !app_assoc. simpl.
      rewrite Hd. auto.
    + destruct (IH (checked ++ [q])%list available (registered ++ [d])%list F)
        as (c' & a' & L & Mc & Ma & Fa).
      exists c', a'. rewrite L, Mc, Ma, !map_app, <- !app_assoc. simpl.
      rewrite Hd. auto.
Qed.

Lemma rank_high (l : list option_t) :
  Forall (fun o => o_confidence o = "High") l -> rank l = l.
Proof.
  intros F. apply ReportFacts.sort_desc_flat. intros x y Hx Hy.
  rewrite Forall_forall in F. unfold rank_key.
  rewrite (F x Hx), (F y Hy). reflexivity.
Qed.

(** X14.  The simple checker works through the variations in the order of
    generation: all are checked; the available domains are the variations
    whose lookup says the name is not known and the registered ones are the
    others, both in that order; the best [.com] option is the first
    generated [.com] variation that is available, and the alternatives are
    the first three available variations that do not end in [.com]. *)
Theorem check_business_name_in_order (w : world) (self : checker)
  (name : string) :
  exists r,
    check_business_name w self name = Ok r /\
    business_name r = name /\
    map q_domain (domains_checked r) = generate_domain_variations self name /\
    map o_domain (available_domains r)
    = filter (dns_says_free w) (generate_domain_variations self name) /\
    registered_domains r
    = filter (fun d => negb (dns_says_free w d))
             (generate_domain_variations self name) /\
    best_com_option r
    = hd_error
        (filter (fun d => endswith d ".com")
                (filter (dns_says_free w)
                        (generate_domain_variations self name))) /\
    best_alternatives r
    = firstn 3
        (filter (fun d => negb (endswith d ".com"))
                (filter (dns_says_free w)
                        (generate_domain_variations self name))).
Proof.
  unfold check_business_name.
  destruct (simple_collect_loop w (generate_domain_variations self name) [] [] []
              (Forall_nil _)) as (c & a & L & Mc & Ma & Fa).
  rewrite L. eexists. split; [reflexivity|]. simpl in Mc, Ma.
  cbn [business_name domains_checked available_domains registered_domains
       best_com_option best_alternatives app].
  assert (Fc : Forall (fun o => o_confidence o = "High") (filter is_com a)).
  { apply Forall_forall. intros o Ho. apply filter_In in Ho.
    rewrite Forall_forall in Fa. apply Fa, Ho. }
  assert (Fn : Forall (fun o => o_confidence o = "High")
                      (filter (fun d => negb (is_com d)) a)).
  { apply Forall_forall. intros o Ho. apply filter_In in Ho.
    rewrite Forall_forall in Fa. apply Fa, Ho. }
  rewrite (rank_high _ Fc), (rank_high _ Fn), <- Ma.
  rewrite !ReportFacts.filter_map_comm, firstn_map.
  repeat split; try assumption.
  unfold is_com. destruct (filter _ a); reflexivity.
Qed.

Lemma check_business_name_returns (w : world) (self : checker)
  (name : string) :
  exists r, check_business_name w self name = Ok r /\ business_name r = name.
Proof.
  unfold check_business_name.
  destruct (fold_left (collect w) (generate_domain_variations self name)
                      ([], [], [])) as [[checked available] registered].
  eexists. split; reflexivity.
Qed.

Lemma simple_track_loop_books (w : world) (self : checker) (names : list string) :
  forall reports with_com best,
  exists reports' with_com' best',
    fold_left (track w self) names (reports, with_com, best)
    = ((reports ++ reports')%list, (with_com ++ with_com')%list,
       (best ++ best')%list) /\
    Forall2 (fun name r => check_business_name w self name = Ok r)
            names reports' /\
    map business_name reports' = names /\
    map fst with_com' = filter (has_com_option w self) names /\
    map opp_name best' = names.
Proof.
  induction names as [|name names IH]; intros reports with_com best.
  - exists [], [], []. simpl. rewrite !app_nil_r. repeat split. constructor.
  - cbn [fold_left]. unfold track at 2.
    destruct (check_business_name_returns w self name) as (r & E & Hn).
    assert (Hh : has_com_option w self name
                 = truthy_str (best_com_option r))
      by (unfold has_com_option; rewrite E; reflexivity).
    rewrite E. cbn [filter]. rewrite Hh.
    destruct (truthy_str (best_com_option r)).
    + match goal with
      | |- context [fold_left _ names (?a, ?b, ?c)] =>
          destruct (IH a b c) as (rs & ws & bs & F & H2 & Hm & Hw & Hb)
      end.
      eexists (r :: rs), (_ :: ws), (_ :: bs). rewrite F.
      split; [|split; [|split; [|split]]].
      * rewrite <- !app_assoc. reflexivity.
      * constructor; assumption.
      * simpl. rewrite Hn, Hm. reflexivity.
      * simpl. rewrite Hw. reflexivity.
      * simpl. rewrite Hb. reflexivity.
    + match goal with
      | |- context [fold_left _ names (?a, ?b, ?c)] =>
          destruct (IH a b c) as (rs & ws & bs & F & H2 & Hm & Hw & Hb)
      end.
      eexists (r :: rs), ws, (_ :: bs). rewrite F.
      split; [|split; [|split; [|split]]].
      * rewrite <- !app_assoc. reflexivity.
      * constructor; assumption.
      * simpl. rewrite Hn, Hm. reflexivity.
      * exact Hw.
      * simpl. rewrite Hb. reflexivity.
Qed.

(** X15.  The simple run keeps one report per candidate name, in the order of
    the candidates, ranks every candidate name once, and lists under
    ['names_with_com'] the names whose report has a best [.com] option, in
    the order of the candidates. *)
Theorem run_check_books (w : world) (self : checker) :
  let res := run_check w self in
  total_names res = List.length (candidate_names self) /\
  map business_name (business_results res) = candidate_names self /\
  Forall2 (fun name r => check_business_name w self name = Ok r)
          (candidate_names self) (business_results res) /\
  map fst (names_with_com (summary res))
  = filter (has_com_option w self) (candidate_names self) /\
  Permutation (map opp_name (best_opportunities (summary res)))
              (candidate_names self).
Proof.
  cbv zeta. unfold run_check.
  destruct (simple_track_loop_books w self (candidate_names self) [] [] [])
    as (rs & ws & bs & F & H2 & Hm & Hw & Hb).
  rewrite F. simpl.
  repeat split; try assumption.
  apply Permutation_trans with (map opp_name bs);
    [apply Permutation_map, sort_desc_perm | rewrite Hb; reflexivity].
Qed.

(** X16.  The summary report needs a ranked name: on an empty ranking it raises
    [IndexError] (from [best_opportunities[0]]), on any other it returns.
    After [run_check] the ranking is empty exactly when there is no
    candidate name, so the report of a run raises exactly then. *)
Theorem generate_summary_report_needs_names (w : world) (self : checker)
  (results : all_results_t) :
  match best_opportunities (summary results) with
  | [] =>
      generate_summary_report results
      = Raise (IndexError "list index out of range")
  | _ :: _ => returns (generate_summary_report results)
  end /\
  match candidate_names self with
  | [] =>
      generate_summary_report (run_check w self)
      = Raise (IndexError "list index out of range")
  | _ :: _ => returns (generate_summary_report (run_check w self))
  end.
Proof.
  assert (G : forall res,
             match best_opportunities (summary res) with
             | [] =>
                 generate_summary_report res
                 = Raise (IndexError "list index out of range")
             | _ :: _ => returns (generate_summary_report res)
             end).
  { intros res. unfold generate_summary_report, report_choice, returns.
    destruct (best_opportunities (summary res)) as [|top rest];
      [reflexivity|].
    destruct (filter com_available (top :: rest)) as [|c [|c' cs]];
      eexists; reflexivity. }
  split; [apply G|].
  specialize (G (run_check w self)).
  assert (P : Permutation
                (map opp_name (best_opportunities (summary (run_check w self))))
                (candidate_names self)).
  { unfold run_check.
    destruct (simple_track_loop_books w self (candidate_names self) [] [] [])
      as (rs & ws & bs & F & _ & _ & _ & Hb).
    rewrite F. simpl.
    apply Permutation_trans with (map opp_name bs);
      [apply Permutation_map, sort_desc_perm | rewrite Hb; reflexivity]. }
  destruct (candidate_names self) as [|name names].
  - apply Permutation_sym, Permutation_nil, map_eq_nil in P.
    rewrite P in G. exact G.
  - destruct (best_opportunities (summary (run_check w self))); [|exact G].
    apply Permutation_nil in P. discriminate P.
Qed.

End SimpleFacts.

(** ** Which names the rankings rank *)

Module RankedNames.
Module D := DomainAvailabilityChecker.
Module S := SimpleDomainChecker.

(** C8 as worded, with the ranking of [run_comprehensive_check] ranking the
    candidate names, fails on a name that has a likely available domain
    but no likely available [.com]: "acme.net" is likely available,
    "acme.com" is not, the report has no best [.com] option and the name is
    left out of the ranking, which is empty. *)
Lemma name_without_com_is_dropped :
  D.generate_domain_variations D.com_and_net "ACME"
  = ["acme.com"; "acme.net"] /\
  (exists r,
      D.check_business_name D.com_taken D.com_and_net "ACME" = Ok r /\
      map D.o_domain (D.available_domains r) = ["acme.net"] /\
      D.registered_domains r = ["acme.com"] /\
      D.best_com_option (D.summary r) = None) /\
  D.best_opportunities
    (D.overall_summary (D.run_comprehensive_check D.com_taken D.com_and_net))
  = [] /\
  ~ D.ranks_all_candidates D.com_taken D.com_and_net.
Proof.
  split; [reflexivity|].
  split; [eexists; repeat split|].
  assert (E : D.best_opportunities
                (D.overall_summary
                   (D.run_comprehensive_check D.com_taken D.com_and_net))
              = []) by reflexivity.
  split; [exact E|].
  unfold D.ranks_all_candidates. cbv zeta. rewrite E.
  intros [P _]. apply Permutation_nil in P. discriminate P.
Qed.

(** C8, as the code has it.  [run_check] ranks every candidate name once,
    in descending order of the pair (a [.com] domain is likely available
    for the name, number of the name's likely available domains).
    [run_comprehensive_check] ranks the names whose report has a best
    [.com] option and leaves the others out; it sorts them by the number
    of likely available domains, descending, which on these names is the
    descending order of the pair.  In both, an entry's flag and count are
    those of its name's report. *)
Theorem candidates_ranked (w : D.world) (self : D.checker)
  (sw : S.world) (sself : S.checker) :
  let ranking :=
    D.best_opportunities (D.overall_summary (D.run_comprehensive_check w self))
  in
  let simple_ranking :=
    S.best_opportunities (S.summary (S.run_check sw sself)) in
  Permutation (map S.opp_name simple_ranking) (S.candidate_names sself) /\
  StronglySorted
    (fun x y => pair_desc (S.opportunity_key x) (S.opportunity_key y))
    simple_ranking /\
  Forall (S.opportunity_ok sw sself) simple_ranking /\
  Permutation (map D.opp_business_name ranking)
              (filter (D.has_com_option w self) (D.candidate_names self)) /\
  StronglySorted
    (fun x y => pair_desc (D.opportunity_key x) (D.opportunity_key y))
    ranking /\
  ranking
  = sort_desc (pair_lt Bool.eqb bool_lt Nat.ltb) D.opportunity_key
      (snd (fold_left (D.track w self) (D.candidate_names self)
                      ([], 0%Z, []))) /\
  Forall (D.opportunity_ok w self) ranking.
Proof.
  cbv zeta.
  destruct (OpportunityFacts.opportunities_sorted w self sw sself)
    as (Ds & De & Do & Ss & So).
  repeat split; try assumption.
  - unfold S.run_check.
    destruct (SimpleFacts.simple_track_loop_books
                sw sself (S.candidate_names sself) [] [] [])
      as (rs & ws & bs & F & _ & _ & _ & Hb).
    rewrite F. simpl.
    apply Permutation_trans with (map S.opp_name bs);
      [apply Permutation_map, sort_desc_perm | rewrite Hb; reflexivity].
  - unfold D.run_comprehensive_check.
    destruct (RunFacts.track_loop_books w self (D.candidate_names self)
                                        [] 0%Z [])
      as (rs & bs & F & _ & _ & Hb).
    rewrite F. simpl. rewrite <- Hb.
    apply Permutation_map, sort_desc_perm.
Qed.

End RankedNames.
